(** * Student grade analyzer (lecture_3/main.py): model and verified properties

    The console program keeps a roster of students in a global list, reads
    lines from standard input and prints to standard output.  It is embedded
    here as pure functions over an explicit state: the lines still to be
    read, the roster, and the trace of what has been written so far.

    Text is ASCII ([string]); Python floats are IEEE-754 binary64 values,
    represented by [spec_float] with the reference operations of the
    standard library ([prec = 53], [emax = 1024]).

    Contents: the [str] methods and [int]; the float operations; the
    roster and the functions of the program; the notions the properties
    are stated with; facts about text, the roster store, the order of
    floats, the reports, and the distance between the floats and the exact
    quotients; examples; the properties of the specification, C1 to C10;
    further properties of the program, X1 to X20. *)

From Stdlib Require Import ZArith List String Ascii Bool Lia DecimalString DecimalPos.
From Stdlib Require Import Permutation.
From Stdlib Require Import SpecFloat.
Import ListNotations.

Local Open Scope string_scope.
Local Open Scope list_scope.
Local Open Scope Z_scope.

(** Concatenation of strings, as the f-strings do it. *)
Local Infix "+++" := String.append (at level 60, right associativity).

(** ** Characters and the [str] methods the program calls *)

Module Text.

Definition code (c : ascii) : Z := Z.of_nat (nat_of_ascii c).

(** [str.isspace] and the separators of [str.split()] on ASCII text:
    TAB, LF, VT, FF, CR, the four separators FS GS RS US, and the space. *)
Definition isspace (c : ascii) : bool :=
  ((9 <=? code c) && (code c <=? 13)) || ((28 <=? code c) && (code c <=? 32)).

Definition isupper (c : ascii) : bool := (65 <=? code c) && (code c <=? 90).
Definition islower (c : ascii) : bool := (97 <=? code c) && (code c <=? 122).
Definition isalpha (c : ascii) : bool := isupper c || islower c.
Definition isdigit (c : ascii) : bool := (48 <=? code c) && (code c <=? 57).

Definition to_lower (c : ascii) : ascii :=
  if isupper c then ascii_of_nat (nat_of_ascii c + 32) else c.
Definition to_upper (c : ascii) : ascii :=
  if islower c then ascii_of_nat (nat_of_ascii c - 32) else c.

(** [s.lower()] *)
Fixpoint lower (s : string) : string :=
  match s with
  | EmptyString => EmptyString
  | String c r => String (to_lower c) (lower r)
  end.

(** [s.title()]: a letter that follows a letter is lowered, any other
    letter is raised. *)
Fixpoint title_from (previous_is_cased : bool) (s : string) : string :=
  match s with
  | EmptyString => EmptyString
  | String c r =>
      String (if previous_is_cased then to_lower c else to_upper c)
             (title_from (isalpha c) r)
  end.

Definition title (s : string) : string := title_from false s.

(** [s.split()]: the scanner keeps the words already closed and the word
    being read; a separator closes the current word if there is one. *)
Record split_state := { closed : list string; current : string }.

Definition split_start : split_state := {| closed := []; current := "" |}.

Definition split_step (st : split_state) (c : ascii) : split_state :=
  if isspace c then
    match current st with
    | EmptyString => st
    | w => {| closed := closed st ++ [w]; current := "" |}
    end
  else {| closed := closed st; current := current st +++ String c "" |}.

Definition split_finish (st : split_state) : list string :=
  match current st with
  | EmptyString => closed st
  | w => closed st ++ [w]
  end.

Definition split (s : string) : list string :=
  split_finish (fold_left split_step (list_ascii_of_string s) split_start).

(** [sep.join(words)] *)
Definition join (sep : string) (ws : list string) : string := String.concat sep ws.

(** [all(p(ch) for ch in s)] *)
Fixpoint all_chars (p : ascii -> bool) (s : string) : bool :=
  match s with
  | EmptyString => true
  | String c r => p c && all_chars p r
  end.

(** *** [int(text)] in base 10

    Optional blanks, an optional sign, digits that may be separated by
    single underscores, optional blanks.  The blanks of [int] are the C
    ones (TAB..CR and the space), not the wider set of [str.isspace]. *)
Definition c_isspace (c : ascii) : bool :=
  ((9 <=? code c) && (code c <=? 13)) || (code c =? 32).

Fixpoint skip_blanks (s : string) : string :=
  match s with
  | String c r => if c_isspace c then skip_blanks r else s
  | EmptyString => s
  end.

Definition digit_value (c : ascii) : Z := code c - 48.

(** Reads the digits after the first one; [after_underscore] tells that
    the previous character was an underscore, so a digit must follow. *)
Fixpoint int_digits (after_underscore : bool) (acc : Z) (s : string) : option (Z * string) :=
  match s with
  | String c r =>
      if isdigit c then int_digits false (10 * acc + digit_value c) r
      else if (code c =? 95) then
        if after_underscore then None else int_digits true acc r
      else if after_underscore then None else Some (acc, s)
  | EmptyString => if after_underscore then None else Some (acc, s)
  end.

Definition int_magnitude (s : string) : option Z :=
  match s with
  | String c r =>
      if isdigit c then
        match int_digits false (digit_value c) r with
        | Some (v, rest) =>
            match skip_blanks rest with
            | EmptyString => Some v
            | _ => None
            end
        | None => None
        end
      else None
  | EmptyString => None
  end.

(** [str(n)] for an [int] *)
Definition decimal (n : Z) : string :=
  match n with
  | Zneg p => "-" +++ NilZero.string_of_uint (Pos.to_uint p)
  | _ => NilZero.string_of_uint (N.to_uint (Z.to_N n))
  end.

(** [None] stands for [ValueError]. *)
Definition py_int (s : string) : option Z :=
  match skip_blanks s with
  | String "+" r => int_magnitude r
  | String "-" r => option_map Z.opp (int_magnitude r)
  | t => int_magnitude t
  end.

End Text.

(** ** Python floats *)

Module Float.

Definition prec : Z := 53.
Definition emax : Z := 1024.

Definition zero : spec_float := S754_zero false.

(** The float nearest to the quotient [a / b] of a natural number by a
    positive one, with sign [s]: the integer quotient is computed with
    enough bits, the place of the remainder is recorded, and the whole is
    rounded once, ties to even.  This is what Python's [/] gives on two
    [int]s, and what reading a decimal text gives. *)
Definition div_nat (s : bool) (a b : Z) : spec_float :=
  let '(q, e, l) := SFdiv_core_binary prec emax a 0 b 0 in
  binary_round_aux prec emax s q e l.

(** [a / b] on two [int]s; [None] stands for [ZeroDivisionError].  Where
    the quotient exceeds the largest float Python raises [OverflowError];
    the model has the IEEE infinity there.  It takes a sum of grades beyond
    10^308: with valid grades the quotient is finite ([mean_finite]
    below). *)
Definition int_truediv (a b : Z) : option spec_float :=
  if b =? 0 then None
  else Some (div_nat (xorb (a <? 0) (b <? 0)) (Z.abs a) (Z.abs b)).

(** [float(n)] for an [int], as the division of a float by an [int]
    converts it. *)
Definition of_int (n : Z) : spec_float := binary_normalize prec emax n 0 false.

(** [x / n] for a float and the length of a list that is not empty, so
    that the divisor is not zero. *)
Definition div_by_len (x : spec_float) (n : nat) : spec_float :=
  SFdiv prec emax x (of_int (Z.of_nat n)).

Definition add (x y : spec_float) : spec_float := SFadd prec emax x y.

(** [x < y] and [x > y] *)
Definition lt (x y : spec_float) : bool := SFltb x y.
Definition gt (x y : spec_float) : bool := SFltb y x.

(** The integer nearest to [10 * m * 2^e], ties to the even one. *)
Definition tenths (m : positive) (e : Z) : Z :=
  match e with
  | Zneg p =>
      let den := Z.pow_pos 2 p in
      let q := (10 * Zpos m) / den in
      let r := (10 * Zpos m) mod den in
      match 2 * r ?= den with
      | Lt => q
      | Gt => q + 1
      | Eq => if Z.even q then q else q + 1
      end
  | _ => 10 * Zpos m * 2 ^ e
  end.

(** [round(x, 1)]: the decimal with one fractional digit nearest to the
    exact value of [x], converted back to the nearest float. *)
Definition round1 (x : spec_float) : spec_float :=
  match x with
  | S754_finite s m e => div_nat s (tenths m e) 10
  | _ => x
  end.

(** [repr(x)], as the f-strings print it, for the floats that the
    program prints: all come out of [round1], and an average of grades is
    far below 2^49, where a float has one nearest decimal with one
    fractional digit, which is its shortest text.  The digits of the
    tenths are written with the point before the last one. *)
Definition repr (x : spec_float) : string :=
  match x with
  | S754_zero s => if s then "-0.0" else "0.0"
  | S754_infinity s => if s then "-inf" else "inf"
  | S754_nan => "nan"
  | S754_finite s m e =>
      let n := tenths m e in
      (if s then "-" else "") +++ Text.decimal (n / 10) +++ "." +++ Text.decimal (n mod 10)
  end.

(** [sum(xs)] on floats: the additions are made from left to right,
    starting from the integer 0.  (From version 3.12 on CPython carries a
    correction term along; nothing below depends on the last bit of the
    sum.) *)
Definition sum (xs : list spec_float) : spec_float := fold_left add xs zero.

(** [max(xs)] and [min(xs)] keep the first item and replace it by a later
    one only when that one is strictly greater (strictly smaller). *)
Definition max (x : spec_float) (xs : list spec_float) : spec_float :=
  fold_left (fun best item => if gt item best then item else best) xs x.

Definition min (x : spec_float) (xs : list spec_float) : spec_float :=
  fold_left (fun best item => if lt item best then item else best) xs x.

(** [max(xs, key=f)]: the key of each item is computed once; the item
    kept changes only for a strictly greater key.  [None] when a call of
    [f] raises. *)
Fixpoint max_from {A : Type} (key : A -> option spec_float)
    (maxitem : A) (maxval : spec_float) (xs : list A) : option A :=
  match xs with
  | [] => Some maxitem
  | item :: rest =>
      match key item with
      | None => None
      | Some val =>
          if gt val maxval then max_from key item val rest
          else max_from key maxitem maxval rest
      end
  end.

Definition max_by {A : Type} (key : A -> option spec_float) (x : A) (xs : list A) : option A :=
  match key x with
  | None => None
  | Some val => max_from key x val xs
  end.

End Float.

(** ** The roster and the console *)

(** A student is the dict [{"name": ..., "grades": [...]}]. *)
Record student := { name : string; grades : list Z }.

Definition roster := list student.

(** What the program writes: the text of a [print] (a full line) or the
    prompt of an [input]. *)
Inductive event :=
| Print (line : string)
| Prompt (text : string).

(** How a call ends: it returns, or an exception that nothing catches
    leaves it: [EOFError] when [input] finds the standard input exhausted,
    [ZeroDivisionError] from a division.  [OutOfFuel] is the model's own:
    the bound on the iterations of the main loop was reached. *)
Inductive status := Returned | EOFError | ZeroDivisionError | OutOfFuel.

(** The result of running a piece of the program: the lines not yet read,
    the roster, the events written, in order, and how it ended. *)
Record run := {
  unread : list string;
  students : roster;
  events : list event;
  ending : status
}.

(** [evs] happen, then [r]. *)
Definition after (evs : list event) (r : run) : run :=
  {| unread := unread r; students := students r;
     events := evs ++ events r; ending := ending r |}.

Definition returned (ins : list string) (studs : roster) (evs : list event) : run :=
  {| unread := ins; students := studs; events := evs; ending := Returned |}.

Definition raised (exn : status) (ins : list string) (studs : roster) (evs : list event) : run :=
  {| unread := ins; students := studs; events := evs; ending := exn |}.

(** *** find_student

    The position of the first record with that name; it stands for the
    reference to the dict that the Python function returns, through which
    [add_grades] later appends. *)
Fixpoint find_student (n : string) (studs : roster) : option nat :=
  match studs with
  | [] => None
  | s :: rest =>
      if String.eqb (name s) n then Some O
      else option_map S (find_student n rest)
  end.

(** *** check_input

    [normalize] is the expression applied to the line read.  [check_input]
    takes the line that its [input] call read and gives the name, or [None],
    with what it wrote. *)
Definition normalize (raw : string) : string :=
  Text.title (Text.join " " (Text.split raw)).

Definition name_char (ind : ascii) : bool :=
  Text.isalpha ind || Text.isspace ind || Ascii.eqb ind "-" || Ascii.eqb ind "'".

Definition name_prompt : event := Prompt "Enter student name: ".
Definition invalid_name : event := Print "Enter valid student name! ".

Definition check_input (raw : string) : option string * list event :=
  let name := normalize raw in
  if String.eqb name "" || negb (Text.all_chars name_char name)
  then (None, [name_prompt; invalid_name])
  else (Some name, [name_prompt]).

(** *** add_student *)
Definition already_exists (n : string) : event :=
  Print ("The name " +++ n +++ " already exists.").

Definition new_student (n : string) : student := {| name := n; grades := [] |}.

Fixpoint add_student (ins : list string) (studs : roster) : run :=
  match ins with
  | [] => raised EOFError [] studs [name_prompt]
  | raw :: ins' =>
      match check_input raw with
      | (None, evs) => after evs (add_student ins' studs)
      | (Some n, evs) =>
          match find_student n studs with
          | Some _ => after (evs ++ [already_exists n]) (add_student ins' studs)
          | None => returned ins' (studs ++ [new_student n]) evs
          end
      end
  end.

(** *** valid_input *)
Inductive grade_input :=
| Done                (* the string "done" *)
| Grade (value : Z)   (* an int between 0 and 100 *)
| Invalid.            (* None *)

Definition valid_input (input_grade : string) : grade_input :=
  if String.eqb (Text.lower input_grade) "done" then Done
  else
    match Text.py_int input_grade with
    | Some value => if (0 <=? value) && (value <=? 100) then Grade value else Invalid
    | None => Invalid
    end.

(** *** add_grades *)
Definition not_found (n : string) : event :=
  Print ("The student '" +++ n +++ "' is not found.").
Definition grade_prompt : event := Prompt "Enter a grade(or 'done' to finish): ".
Definition invalid_grade : event :=
  Print "Invalid input. Please enter a number (or 'done'): ".

(** [student["grades"].append(result)] through the reference [i]. *)
Fixpoint append_grade (i : nat) (g : Z) (studs : roster) {struct studs} : roster :=
  match studs, i with
  | [], _ => []
  | s :: rest, O => {| name := name s; grades := grades s ++ [g] |} :: rest
  | s :: rest, S j => s :: append_grade j g rest
  end.

(** The inner loop, for the student at position [i]. *)
Fixpoint enter_grades (i : nat) (ins : list string) (studs : roster) : run :=
  match ins with
  | [] => raised EOFError [] studs [grade_prompt]
  | grade :: ins' =>
      match valid_input grade with
      | Done => returned ins' studs [grade_prompt]
      | Grade result => after [grade_prompt] (enter_grades i ins' (append_grade i result studs))
      | Invalid => after [grade_prompt; invalid_grade] (enter_grades i ins' studs)
      end
  end.

Fixpoint add_grades (ins : list string) (studs : roster) : run :=
  match ins with
  | [] => raised EOFError [] studs [name_prompt]
  | raw :: ins' =>
      match check_input raw with
      | (None, evs) => after evs (add_grades ins' studs)
      | (Some n, evs) =>
          match find_student n studs with
          | None => returned ins' studs (evs ++ [not_found n])
          | Some i => after evs (enter_grades i ins' studs)
          end
      end
  end.

(** *** Averages *)

(** [sum(grades)] on [int]s and [len(grades)] *)
Definition total (grades : list Z) : Z := fold_left Z.add grades 0.
Definition len {A : Type} (l : list A) : Z := Z.of_nat (List.length l).

(** [sum(grades) / len(grades)]; [None] is [ZeroDivisionError]. *)
Definition mean (grades : list Z) : option spec_float :=
  Float.int_truediv (total grades) (len grades).

(** [round(sum(grades) / len(grades), 1)] *)
Definition average (grades : list Z) : option spec_float :=
  option_map Float.round1 (mean grades).

(** *** show_report *)
Definition average_line (n : string) (average_grade : spec_float) : event :=
  Print (n +++ "'s average grade is " +++ Float.repr average_grade +++ ".").
Definition no_average_line (n : string) : event :=
  Print (n +++ "'s average grade is N/A.").

(** One turn of the loop over the students: the events so far and the
    list [averages]. *)
Definition report_student (acc : list event * list spec_float) (s : student)
  : list event * list spec_float :=
  let '(evs, averages) := acc in
  match average (grades s) with
  | Some average_grade =>
      (evs ++ [average_line (name s) average_grade], averages ++ [average_grade])
  | None => (evs ++ [no_average_line (name s)], averages)
  end.

Definition no_students : event := Print "No students available.".
Definition report_title : event := Print "-----Student Report-----".
Definition report_rule : event := Print "-------------------------".
Definition no_summary : event := Print "No grades available for summary.".

Definition summary (averages : list spec_float) : list event :=
  match averages with
  | first :: others =>
      let max_average := Float.round1 (Float.max first others) in
      let min_average := Float.round1 (Float.min first others) in
      let overall_average :=
        Float.round1 (Float.div_by_len (Float.sum averages) (List.length averages)) in
      [ report_rule;
        Print ("Max average: " +++ Float.repr max_average);
        Print ("Min average: " +++ Float.repr min_average);
        Print ("Overall average: " +++ Float.repr overall_average) ]
  | [] => [no_summary]
  end.

Definition show_report (studs : roster) : list event :=
  match studs with
  | [] => [no_students]
  | _ =>
      let '(evs, averages) := fold_left report_student studs ([report_title], []) in
      evs ++ summary averages
  end.

(** *** find_top_performer *)
Definition has_grades (s : student) : bool :=
  match grades s with [] => false | _ => true end.

Definition no_grades : event := Print "No grades available".

Definition top_line (n : string) (average_grade : spec_float) : event :=
  Print ("The student with the highest average is " +++ n +++ " "
         +++ "with a grade of " +++ Float.repr average_grade).

(** The student that [max] selects; [None] if a division raised. *)
Definition top_student (students_with_grades : roster) : option student :=
  match students_with_grades with
  | [] => None
  | s :: rest => Float.max_by (fun student => mean (grades student)) s rest
  end.

(** The events written, or [None] if a division raised. *)
Definition find_top_performer (studs : roster) : option (list event) :=
  match studs with
  | [] => Some [no_students]
  | _ =>
      match filter has_grades studs with
      | [] => Some [no_grades]
      | students_with_grades =>
          match top_student students_with_grades with
          | Some top =>
              match average (grades top) with
              | Some average_grade => Some [top_line (name top) average_grade]
              | None => None
              end
          | None => None
          end
      end
  end.

(** *** exit_5, menu and the main loop *)
Definition exit_5 : list event := [Print "Exiting program"].

Definition menu (select : Z) (ins : list string) (studs : roster) : run :=
  if select =? 1 then add_student ins studs
  else if select =? 2 then add_grades ins studs
  else if select =? 3 then returned ins studs (show_report studs)
  else if select =? 4 then
    match find_top_performer studs with
    | Some evs => returned ins studs evs
    | None => raised ZeroDivisionError ins studs []
    end
  else if select =? 5 then returned ins studs exit_5
  else returned ins studs [].

Definition options : list string :=
  [ "Add a new student"; "Add a grades for a student";
    "Show report (all students)"; "Find top performer"; "Exit" ].

(** [enumerate(options, start=i)], each pair printed as ["i. option"]. *)
Fixpoint option_lines (i : Z) (opts : list string) : list event :=
  match opts with
  | [] => []
  | option :: rest => Print (Text.decimal i +++ ". " +++ option) :: option_lines (i + 1) rest
  end.

Definition banner : list event :=
  Print "-----Student Grade Analyzer------" :: option_lines 1 options.

Definition choice_prompt : event := Prompt "Enter your choice: ".
Definition range_error : event := Print "Enter number from 1 to 5: ".

(** The loop at module level.  Every turn reads a line, so [fuel] turns
    are enough for [fuel] lines. *)
Fixpoint main_loop (fuel : nat) (ins : list string) (studs : roster) : run :=
  match fuel with
  | O => raised OutOfFuel ins studs []
  | S fuel' =>
      match ins with
      | [] => raised EOFError [] studs (banner ++ [choice_prompt])
      | raw :: ins' =>
          match Text.py_int raw with
          | None =>
              after (banner ++ [choice_prompt; range_error]) (main_loop fuel' ins' studs)
          | Some choice =>
              if (choice >? 5) || (choice <? 1) then
                after (banner ++ [choice_prompt; range_error]) (main_loop fuel' ins' studs)
              else
                let r := menu choice ins' studs in
                match ending r with
                | Returned =>
                    if choice =? 5 then after (banner ++ [choice_prompt]) r
                    else after (banner ++ [choice_prompt] ++ events r)
                               (main_loop fuel' (unread r) (students r))
                | _ => after (banner ++ [choice_prompt]) r
                end
          end
      end
  end.

(** The loop entered with the roster [studs] and the lines [ins] to read. *)
Definition run_from (studs : roster) (ins : list string) : run :=
  main_loop (S (List.length ins)) ins studs.

(** The program on the lines [ins] of its standard input: the roster is
    empty at the start. *)
Definition main (ins : list string) : run := run_from [] ins.

(** ** Notions the properties are stated with *)


(** The invariant of the data model: every grade is between 0 and 100. *)
Definition grade_ok (g : Z) : Prop := 0 <= g <= 100.
Definition student_ok (s : student) : Prop := Forall grade_ok (grades s).
Definition roster_ok (studs : roster) : Prop := Forall student_ok studs.


(** A line that the menu refuses: not an integer, or one outside 1..5. *)
Definition invalid_choice (raw : string) : Prop :=
  match Text.py_int raw with
  | None => True
  | Some choice => choice < 1 \/ 5 < choice
  end.

(** [top] is the stable maximum of [l] for [key]: the keys before it are
    strictly smaller than its own, the keys after it are smaller or equal.
    It is the first item that reaches the greatest key. *)
Definition stable_max {A : Type} (key : A -> option spec_float) (l : list A) (top : A) : Prop :=
  exists before later ktop,
    l = before ++ top :: later
    /\ key top = Some ktop
    /\ (forall s, In s before -> exists k, key s = Some k /\ SFltb k ktop = true)
    /\ (forall s, In s later -> exists k, key s = Some k /\ SFleb k ktop = true).

(** [m] is in [l] and no item of [l] is above (below) it. *)
Definition greatest (l : list spec_float) (m : spec_float) : Prop :=
  In m l /\ forall x, In x l -> SFleb x m = true.

(** The line of the report for one student, and the averages of the
    students that have one, in the order of the roster. *)
Definition student_line (s : student) : event :=
  match average (grades s) with
  | Some average_grade => average_line (name s) average_grade
  | None => no_average_line (name s)
  end.

Definition averages_of (studs : roster) : list spec_float :=
  flat_map (fun s => match average (grades s) with Some a => [a] | None => [] end) studs.

(** A float that is a number. *)
Definition not_nan (x : spec_float) : Prop := x <> S754_nan.

(** [n / 10] is a decimal with one fractional digit nearest to the exact
    mean [total gs / len gs]: the distance is 1/20 at most. *)
Definition nearest_tenth (gs : list Z) (n : Z) : Prop :=
  2 * Z.abs (n * len gs - 10 * total gs) <= len gs.

(** The text of [n] tenths, for a natural [n]: ["95.0"] for 950. *)
Definition one_decimal (n : Z) : string :=
  Text.decimal (n / 10) +++ "." +++ Text.decimal (n mod 10).

(** The exact mean of [gs1] is below that of [gs2] (both have grades). *)
Definition mean_below (gs1 gs2 : list Z) : Prop :=
  total gs1 * len gs2 < total gs2 * len gs1.

(** The grades of a record of the data model, few enough for the means to
    be told apart by a float: fewer than 2^23 of them. *)
Definition grades_ok (gs : list Z) : Prop :=
  Forall grade_ok gs /\ len gs < 2 ^ 23.


(** The rosters of the examples. *)
Definition ann_bo : roster :=
  [ {| name := "Ann"; grades := [90; 100] |};
    {| name := "Bo"; grades := [95; 95] |} ].

Definition ada : student := {| name := "Ada"; grades := [90; 90; 91] |}.
Definition bob : student := {| name := "Bob"; grades := [90; 90; 90; 90; 90; 91; 91] |}.

(** The averages of the report, for valid grades: floats nearest to a
    number of tenths between 0 and 1000, which [round] leaves as they are
    and which print as that decimal. *)
Definition tenths_float (a : spec_float) : Prop :=
  exists n, 0 <= n <= 1000
            /\ a = Float.div_nat false n 10
            /\ Float.round1 a = a
            /\ Float.repr a = one_decimal n.

(** [top] is the first of the students of [graded] whose exact mean is the
    greatest: the exact means before it are strictly below its own, and no
    exact mean after it is above. *)
Definition first_greatest_mean (graded : roster) (top : student) : Prop :=
  exists before later,
    graded = before ++ top :: later
    /\ (forall t, In t before -> mean_below (grades t) (grades top))
    /\ (forall t, In t later -> ~ mean_below (grades top) (grades t)).

(** ** Notions used in the proofs *)

(** An item whose key is defined and is a number. *)
Definition keyed {A : Type} (key : A -> option spec_float) (s : A) : Prop :=
  exists k, key s = Some k /\ not_nan k.



(** The lines left unread are the end of the lines given. *)
Definition reads_prefix (ins : list string) (r : run) : Prop :=
  exists consumed, ins = consumed ++ unread r.

(** The end of [binary_round_aux], once the mantissa is rounded. *)
Definition pack (s : bool) (m e : Z) : spec_float :=
  let '(mrs, e') := shr_fexp Float.prec Float.emax m e loc_Exact in
  match shr_m mrs with
  | Z0 => S754_zero s
  | Zpos p => if e' <=? Float.emax - Float.prec then S754_finite s p e' else S754_infinity s
  | Zneg _ => S754_nan
  end.

(** [x] is a normal float of sign [s] and exponent between [e] and [e + 2]
    whose distance to [(n / b) * 2^e] is half a unit in the last place at
    most. *)
Definition rounds_to (x : spec_float) (s : bool) (e n b : Z) : Prop :=
  exists m t,
    x = S754_finite s m (e + t)
    /\ 0 <= t <= 2
    /\ 2 ^ 52 <= Zpos m < 2 ^ 53
    /\ 2 * Z.abs (Zpos m * 2 ^ t * b - n) <= 2 ^ t * b.

(** [x] is a float [m * 2^-k] of sign [s], with a mantissa of 53 bits and
    [k] at least 46 (so the float is below 128), within half a unit in the
    last place of [a / b]. *)
Definition close_to (x : spec_float) (s : bool) (a b : Z) : Prop :=
  exists m k,
    x = S754_finite s m (- k)
    /\ 46 <= k
    /\ 2 ^ 52 <= Zpos m < 2 ^ 53
    /\ 2 * Z.abs (Zpos m * b - a * 2 ^ k) <= b.


(** The integer nearest to [n / b], ties to the even one. *)
Definition rne (n b : Z) : Z :=
  let q := n / b in
  let r := n mod b in
  match 2 * r ?= b with
  | Lt => q
  | Gt => q + 1
  | Eq => if Z.even q then q else q + 1
  end.

(** The float of mantissa [m], between 2^52 and 2^53, and exponent [e]:
    a mantissa of 2^53 is written 2^52 with the next exponent. *)
Definition normal (s : bool) (m e : Z) : spec_float :=
  if m =? 2 ^ 53 then S754_finite s 4503599627370496 (e + 1)
  else S754_finite s (Z.to_pos m) e.

(** A session: Ann is added, a second "ANN" is refused and Bo is added
    instead, grades are entered (101 is refused), the two reports are
    asked for, the choices "x" and "6" are refused, 5 ends the program and
    the last line is never read. *)
Definition session : list string :=
  [ "1"; " ann  "; "1"; "ANN"; "bo";
    "2"; "Ann"; "90"; "101"; "100"; "DONE";
    "2"; "bo"; "95"; "95"; "done";
    "3"; "4"; "x"; "6"; "5"; "never read" ].

(** What a run printed, without the menu and the prompts. *)
Definition printed (r : run) : list string :=
  flat_map (fun ev => match ev with
                      | Print line => if existsb (fun b => match b with
                                                           | Print l => String.eqb l line
                                                           | Prompt _ => false
                                                           end) banner
                                      then [] else [line]
                      | Prompt _ => []
                      end) (events r).

Definition ann : student := {| name := "Ann"; grades := [90; 100] |}.
Definition cy : student := {| name := "Cy"; grades := [] |}.

(** ** Notions for the further properties *)

(** The number that the digits [d] write after the digits that wrote
    [acc]. *)
Fixpoint uint_acc (d : Decimal.uint) (acc : Z) : Z :=
  match d with
  | Decimal.Nil => acc
  | Decimal.D0 d => uint_acc d (10 * acc)
  | Decimal.D1 d => uint_acc d (10 * acc + 1)
  | Decimal.D2 d => uint_acc d (10 * acc + 2)
  | Decimal.D3 d => uint_acc d (10 * acc + 3)
  | Decimal.D4 d => uint_acc d (10 * acc + 4)
  | Decimal.D5 d => uint_acc d (10 * acc + 5)
  | Decimal.D6 d => uint_acc d (10 * acc + 6)
  | Decimal.D7 d => uint_acc d (10 * acc + 7)
  | Decimal.D8 d => uint_acc d (10 * acc + 8)
  | Decimal.D9 d => uint_acc d (10 * acc + 9)
  end.



(** The grades among the lines typed up to the first line that reads
    "done", in the order typed. *)
Fixpoint typed_grades (ins : list string) : list Z :=
  match ins with
  | [] => []
  | line :: rest =>
      match valid_input line with
      | Done => []
      | Grade value => value :: typed_grades rest
      | Invalid => typed_grades rest
      end
  end.

(** The lines after the first line that reads "done", if there is one. *)
Fixpoint after_done (ins : list string) : option (list string) :=
  match ins with
  | [] => None
  | line :: rest =>
      match valid_input line with
      | Done => Some rest
      | _ => after_done rest
      end
  end.

(** [new] has every record of [old] at its place, under the same name and
    with the same grades followed by further ones. *)
Definition grows (old new : roster) : Prop :=
  forall i s, nth_error old i = Some s ->
    exists t more, nth_error new i = Some t
                   /\ name t = name s /\ grades t = grades s ++ more.


(** The number of calls to [input] among the events. *)
Fixpoint prompts (evs : list event) : nat :=
  match evs with
  | [] => O
  | Prompt _ :: rest => S (prompts rest)
  | Print _ :: rest => prompts rest
  end.

(** The number of calls to [input] that found no line. *)
Definition failed_reads (r : run) : nat :=
  match ending r with EOFError => 1 | _ => 0 end.

(** The run [r] with the lines [more] left unread after its own. *)
Definition with_more (more : list string) (r : run) : run :=
  {| unread := unread r ++ more; students := students r;
     events := events r; ending := ending r |}.

(** What is written for [ins] is the beginning of what is written for
    [ins] followed by [more]. *)
Definition written_first (r r' : run) : Prop :=
  exists later, events r' = events r ++ later.

(** ** Facts about the text functions *)

Section TextFacts.

Import Text.


Lemma valid_input_done (s : string) :
  valid_input s = Done <-> lower s = "done".
Proof.
  unfold valid_input.
  destruct (String.eqb_spec (lower s) "done") as [E|E].
  - tauto.
  - split; [|tauto].
    destruct (py_int s) as [v|]; [destruct (_ && _)|]; discriminate.
Qed.

Lemma valid_input_grade (s : string) (v : Z) :
  valid_input s = Grade v <->
  lower s <> "done" /\ py_int s = Some v /\ 0 <= v <= 100.
Proof.
  unfold valid_input.
  destruct (String.eqb_spec (lower s) "done") as [E|E].
  - split; [discriminate | tauto].
  - destruct (py_int s) as [w|].
    + destruct (Z.leb_spec 0 w), (Z.leb_spec w 100); simpl; split;
        try discriminate;
        try (intros [= ->]; repeat split; trivial; lia);
        intros (_ & [= ->] & ?); trivial; lia.
    + split; [discriminate | intros (_ & ? & _); discriminate].
Qed.

Lemma valid_input_invalid (s : string) :
  valid_input s = Invalid <->
  lower s <> "done" /\ (forall v, py_int s = Some v -> ~ 0 <= v <= 100).
Proof.
  unfold valid_input.
  destruct (String.eqb_spec (lower s) "done") as [E|E].
  - split; [discriminate | tauto].
  - destruct (py_int s) as [w|].
    + destruct (Z.leb_spec 0 w), (Z.leb_spec w 100); simpl; split;
        try discriminate; try reflexivity;
        try (intros _; split; trivial; intros v [= <-]; lia).
      intros (_ & Hall). exfalso. apply (Hall w); [reflexivity | lia].
    + split; [|reflexivity]. intros _. split; trivial. discriminate.
Qed.

(** *** Case *)








(** *** The scanner of [split] *)




















(** *** The normal form of a name *)









End TextFacts.

(** ** The roster store *)

Section RosterFacts.

Lemma find_student_none n studs :
  find_student n studs = None <-> ~ In n (map name studs).
Proof.
  induction studs as [|s studs IH]; simpl.
  - tauto.
  - destruct (String.eqb_spec (name s) n) as [E|E].
    + split; [discriminate | tauto].
    + destruct (find_student n studs) as [i|]; simpl.
      * split; [discriminate|]. intros H.
        assert (Some i = None) by (apply IH; tauto). discriminate.
      * split; trivial. intros _ [F|F]; [congruence|].
        destruct IH as [IH _]. apply IH; trivial.
Qed.


(** The position found holds a record with that name. *)
Lemma find_student_nth n studs i :
  find_student n studs = Some i ->
  exists s, nth_error studs i = Some s /\ name s = n.
Proof.
  revert i. induction studs as [|s studs IH]; simpl; intros i; [discriminate|].
  destruct (String.eqb_spec (name s) n) as [E|E].
  - intros [= <-]. exists s. split; trivial.
  - destruct (find_student n studs) as [j|]; simpl; [|discriminate].
    intros [= <-]. apply IH. reflexivity.
Qed.

Lemma after_after evs1 evs2 r : after evs1 (after evs2 r) = after (evs1 ++ evs2) r.
Proof. unfold after; simpl. rewrite app_assoc. reflexivity. Qed.

Lemma after_nil r : after [] r = r.
Proof. destruct r; reflexivity. Qed.

Lemma check_input_some raw n :
  fst (check_input raw) = Some n -> check_input raw = (Some n, [name_prompt]).
Proof.
  unfold check_input. destruct (_ || _); simpl; [discriminate|].
  intros [= <-]. reflexivity.
Qed.

Lemma check_input_none raw :
  fst (check_input raw) = None -> check_input raw = (None, [name_prompt; invalid_name]).
Proof.
  unfold check_input. destruct (_ || _); simpl; [reflexivity | discriminate].
Qed.

(** *** add_student *)


Lemma add_student_fresh raw n rest studs :
  fst (check_input raw) = Some n -> ~ In n (map name studs) ->
  add_student (raw :: rest) studs
  = returned rest (studs ++ [new_student n]) [name_prompt].
Proof.
  intros C P. simpl. rewrite (check_input_some _ _ C).
  apply find_student_none in P. rewrite P. reflexivity.
Qed.


(** Whatever is typed, the call ends at the end of the input with the
    roster as it was, or returns with one record more: a new name with no
    grade, at the end.  The lines it leaves are a proper tail of [ins]. *)
Lemma add_student_spec ins studs :
  let r := add_student ins studs in
  (ending r = EOFError /\ students r = studs /\ unread r = [])
  \/ (ending r = Returned
      /\ (exists n, ~ In n (map name studs) /\ students r = studs ++ [new_student n])
      /\ (List.length (unread r) < List.length ins)%nat).
Proof.
  induction ins as [|raw ins IH]; simpl.
  - left. repeat split.
  - destruct (check_input raw) as [[n|] evs].
    + destruct (find_student n studs) as [i|] eqn:F.
      * simpl. destruct IH as [IH|(E & N & L)]; [left; exact IH|right].
        repeat split; trivial. lia.
      * right. simpl. repeat split; [|lia].
        exists n. split; trivial. apply find_student_none, F.
    + simpl. destruct IH as [IH|(E & N & L)]; [left; exact IH|right].
      repeat split; trivial. lia.
Qed.






(** *** The grades stay between 0 and 100 *)

Lemma append_grade_ok i g studs :
  grade_ok g -> roster_ok studs -> roster_ok (append_grade i g studs).
Proof.
  intros G. revert i. induction studs as [|s studs IH]; intros i H; simpl.
  - constructor.
  - inversion H as [|? ? Hs Hr]; subst. destruct i as [|j].
    + constructor; trivial. unfold student_ok; simpl.
      apply Forall_app. split; [exact Hs | constructor; [exact G | constructor]].
    + constructor; trivial. apply IH, Hr.
Qed.

Lemma valid_input_grade_ok line g : valid_input line = Grade g -> grade_ok g.
Proof. intros H. apply valid_input_grade in H. apply H. Qed.

Lemma enter_grades_ok i ins studs :
  roster_ok studs -> roster_ok (students (enter_grades i ins studs)).
Proof.
  revert studs. induction ins as [|line ins IH]; intros studs H; simpl; trivial.
  destruct (valid_input line) as [|g|] eqn:V; simpl; trivial.
  - apply IH, append_grade_ok; trivial. apply (valid_input_grade_ok _ _ V).
  - apply IH, H.
Qed.

Lemma add_grades_ok ins studs :
  roster_ok studs -> roster_ok (students (add_grades ins studs)).
Proof.
  intros H. induction ins as [|raw ins IH]; simpl; trivial.
  destruct (check_input raw) as [[n|] evs]; simpl; trivial.
  destruct (find_student n studs) as [i|]; simpl; trivial.
  apply enter_grades_ok, H.
Qed.

Lemma add_student_ok ins studs :
  roster_ok studs -> roster_ok (students (add_student ins studs)).
Proof.
  intros H.
  destruct (add_student_spec ins studs) as [(_ & -> & _)|(_ & (m & _ & ->) & _)]; trivial.
  apply Forall_app. split; trivial. constructor; constructor.
Qed.

Lemma menu_ok select ins studs :
  roster_ok studs -> roster_ok (students (menu select ins studs)).
Proof.
  intros H. unfold menu.
  destruct (select =? 1); [apply add_student_ok, H|].
  destruct (select =? 2); [apply add_grades_ok, H|].
  destruct (select =? 3); trivial.
  destruct (select =? 4); [destruct (find_top_performer studs); exact H|].
  destruct (select =? 5); exact H.
Qed.

Lemma main_loop_ok fuel ins studs :
  roster_ok studs -> roster_ok (students (main_loop fuel ins studs)).
Proof.
  revert ins studs. induction fuel as [|fuel IH]; intros ins studs H; simpl; trivial.
  destruct ins as [|raw ins]; simpl; trivial.
  destruct (Text.py_int raw) as [choice|]; [|apply IH, H].
  destruct (_ || _); [apply IH, H|].
  pose proof (menu_ok choice ins studs H) as M.
  destruct (ending (menu choice ins studs)); simpl; trivial.
  destruct (choice =? 5); simpl; trivial. apply IH, M.
Qed.

(** *** The lines left unread *)

Lemma add_student_unread ins studs :
  (List.length (unread (add_student ins studs)) <= List.length ins)%nat.
Proof.
  destruct (add_student_spec ins studs) as [(_ & _ & ->)|(_ & _ & L)]; simpl; lia.
Qed.

Lemma enter_grades_unread i ins studs :
  (List.length (unread (enter_grades i ins studs)) <= List.length ins)%nat.
Proof.
  revert studs. induction ins as [|line ins IH]; intros studs; simpl; trivial.
  destruct (valid_input line); simpl; auto.
Qed.

Lemma add_grades_unread ins studs :
  (List.length (unread (add_grades ins studs)) <= List.length ins)%nat.
Proof.
  induction ins as [|raw ins IH]; simpl; trivial.
  destruct (check_input raw) as [[n|] evs]; simpl; auto.
  destruct (find_student n studs) as [i|]; simpl; auto.
  pose proof (enter_grades_unread i ins studs). lia.
Qed.

Lemma menu_unread select ins studs :
  (List.length (unread (menu select ins studs)) <= List.length ins)%nat.
Proof.
  unfold menu.
  destruct (select =? 1); [apply add_student_unread|].
  destruct (select =? 2); [apply add_grades_unread|].
  destruct (select =? 3); trivial.
  destruct (select =? 4); [destruct (find_top_performer studs); simpl; lia|].
  destruct (select =? 5); simpl; lia.
Qed.

(** *** How the operations end *)

Lemma enter_grades_ending i ins studs :
  let r := enter_grades i ins studs in
  ending r = Returned \/ (ending r = EOFError /\ unread r = []).
Proof.
  revert studs. induction ins as [|line ins IH]; intros studs; simpl; auto.
  destruct (valid_input line); simpl; auto; apply IH.
Qed.

Lemma add_grades_ending ins studs :
  let r := add_grades ins studs in
  ending r = Returned \/ (ending r = EOFError /\ unread r = []).
Proof.
  induction ins as [|raw ins IH]; simpl; auto.
  destruct (check_input raw) as [[n|] evs]; simpl; auto.
  destruct (find_student n studs) as [i|]; simpl; auto.
  apply enter_grades_ending.
Qed.

Lemma add_student_ending ins studs :
  let r := add_student ins studs in
  ending r = Returned \/ (ending r = EOFError /\ unread r = []).
Proof.
  destruct (add_student_spec ins studs) as [(E & _ & U)|(E & _)]; simpl; auto.
Qed.


(** *** The main loop *)

(** More turns than lines: the bound is never reached, and the result
    does not depend on it. *)
Lemma main_loop_fuel fuel1 fuel2 ins studs :
  (List.length ins < fuel1)%nat -> (List.length ins < fuel2)%nat ->
  main_loop fuel1 ins studs = main_loop fuel2 ins studs.
Proof.
  revert fuel2 ins studs.
  induction fuel1 as [|fuel1 IH]; intros fuel2 ins studs L1 L2; [lia|].
  destruct fuel2 as [|fuel2]; [lia|]. simpl.
  destruct ins as [|raw ins]; trivial. simpl in L1, L2.
  destruct (Text.py_int raw) as [choice|]; [|f_equal; apply IH; lia].
  destruct (_ || _); [f_equal; apply IH; lia|].
  pose proof (menu_unread choice ins studs) as U.
  destruct (ending (menu choice ins studs)); trivial.
  destruct (choice =? 5); trivial. f_equal. apply IH; lia.
Qed.


Lemma main_loop_turn fuel raw ins studs :
  main_loop (S fuel) (raw :: ins) studs
  = match Text.py_int raw with
    | None => after (banner ++ [choice_prompt; range_error]) (main_loop fuel ins studs)
    | Some choice =>
        if (choice >? 5) || (choice <? 1) then
          after (banner ++ [choice_prompt; range_error]) (main_loop fuel ins studs)
        else
          let r := menu choice ins studs in
          match ending r with
          | Returned =>
              if choice =? 5 then after (banner ++ [choice_prompt]) r
              else after (banner ++ [choice_prompt] ++ events r)
                         (main_loop fuel (unread r) (students r))
          | _ => after (banner ++ [choice_prompt]) r
          end
    end.
Proof. reflexivity. Qed.

Lemma run_from_turn raw ins studs :
  run_from studs (raw :: ins) = main_loop (S (S (List.length ins))) (raw :: ins) studs.
Proof. reflexivity. Qed.

Lemma run_from_invalid raw rest studs :
  invalid_choice raw ->
  run_from studs (raw :: rest)
  = after (banner ++ [choice_prompt; range_error]) (run_from studs rest).
Proof.
  unfold invalid_choice. intros H. rewrite run_from_turn, main_loop_turn.
  destruct (Text.py_int raw) as [choice|]; [|reflexivity].
  destruct (Z.gtb_spec choice 5), (Z.ltb_spec choice 1); cbn [orb]; try reflexivity; lia.
Qed.

Lemma run_from_exit raw rest studs :
  Text.py_int raw = Some 5 ->
  run_from studs (raw :: rest) = returned rest studs (banner ++ [choice_prompt] ++ exit_5).
Proof.
  intros H. rewrite run_from_turn, main_loop_turn, H. reflexivity.
Qed.

Lemma run_from_operation raw choice rest studs :
  Text.py_int raw = Some choice -> 1 <= choice <= 4 ->
  let r := menu choice rest studs in
  run_from studs (raw :: rest)
  = match ending r with
    | Returned => after (banner ++ [choice_prompt] ++ events r)
                        (run_from (students r) (unread r))
    | _ => after (banner ++ [choice_prompt]) r
    end.
Proof.
  intros H R r. rewrite run_from_turn, main_loop_turn, H.
  destruct (Z.gtb_spec choice 5), (Z.ltb_spec choice 1); cbn [orb]; try lia.
  cbv zeta. fold r. destruct (ending r); trivial.
  destruct (Z.eqb_spec choice 5); [lia|].
  f_equal. apply main_loop_fuel; [|lia].
  pose proof (menu_unread choice rest studs) as U. fold r in U. lia.
Qed.

(** Any number of refused lines in a row. *)
Lemma run_from_invalid_many bad rest studs :
  Forall invalid_choice bad ->
  run_from studs (bad ++ rest)
  = after (flat_map (fun _ => banner ++ [choice_prompt; range_error]) bad)
          (run_from studs rest).
Proof.
  induction 1 as [|raw bad H _ IH]; simpl.
  - symmetry. apply after_nil.
  - rewrite (run_from_invalid _ _ _ H), IH, after_after. reflexivity.
Qed.

(** *** What has been read *)

Lemma reads_prefix_cons raw ins evs r :
  reads_prefix ins r -> reads_prefix (raw :: ins) (after evs r).
Proof. intros [c ->]. exists (raw :: c). reflexivity. Qed.


Lemma add_student_reads ins studs : reads_prefix ins (add_student ins studs).
Proof.
  induction ins as [|raw ins IH]; simpl.
  - exists []. reflexivity.
  - destruct (check_input raw) as [[n|] evs].
    + destruct (find_student n studs).
      * apply reads_prefix_cons, IH.
      * exists [raw]. reflexivity.
    + apply reads_prefix_cons, IH.
Qed.

Lemma enter_grades_reads i ins studs : reads_prefix ins (enter_grades i ins studs).
Proof.
  revert studs. induction ins as [|line ins IH]; intros studs; simpl.
  - exists []. reflexivity.
  - destruct (valid_input line).
    + exists [line]. reflexivity.
    + apply reads_prefix_cons, IH.
    + apply reads_prefix_cons, IH.
Qed.

Lemma add_grades_reads ins studs : reads_prefix ins (add_grades ins studs).
Proof.
  induction ins as [|raw ins IH]; simpl.
  - exists []. reflexivity.
  - destruct (check_input raw) as [[n|] evs].
    + destruct (find_student n studs).
      * apply reads_prefix_cons, enter_grades_reads.
      * exists [raw]. reflexivity.
    + apply reads_prefix_cons, IH.
Qed.

Lemma menu_reads select ins studs : reads_prefix ins (menu select ins studs).
Proof.
  unfold menu.
  destruct (select =? 1); [apply add_student_reads|].
  destruct (select =? 2); [apply add_grades_reads|].
  destruct (select =? 3); [exists []; reflexivity|].
  destruct (select =? 4); [destruct (find_top_performer studs); exists []; reflexivity|].
  destruct (select =? 5); exists []; reflexivity.
Qed.

(** The loop returns only after reading a line that is the choice 5: it
    is the last line read. *)
Lemma main_loop_returned fuel : forall ins studs,
  ending (main_loop fuel ins studs) = Returned ->
  exists before raw,
    ins = before ++ raw :: unread (main_loop fuel ins studs)
    /\ Text.py_int raw = Some 5.
Proof.
  induction fuel as [|fuel IH]; intros ins studs; [discriminate|].
  destruct ins as [|raw ins]; [discriminate|].
  rewrite main_loop_turn.
  destruct (Text.py_int raw) as [choice|] eqn:P.
  - destruct (_ || _).
    + simpl. intros E. destruct (IH _ _ E) as (b & r & U & Q).
      exists (raw :: b), r. split; trivial. simpl. f_equal. exact U.
    + cbv zeta. pose proof (menu_reads choice ins studs) as [c C].
      destruct (ending (menu choice ins studs)) eqn:M; simpl; try congruence.
      destruct (Z.eqb_spec choice 5) as [->|D]; simpl.
      * intros _. exists [], raw. split; trivial.
      * intros E. destruct (IH _ _ E) as (b & r & U & Q).
        exists (raw :: c ++ b), r. split; trivial.
        simpl. f_equal. rewrite <- app_assoc. rewrite <- U. exact C.
  - simpl. intros E. destruct (IH _ _ E) as (b & r & U & Q).
    exists (raw :: b), r. split; trivial. simpl. f_equal. exact U.
Qed.

End RosterFacts.

(** ** The order of floats *)

Section FloatOrder.

Ltac order_cases :=
  repeat match goal with
  | |- context [Z.compare ?a ?b] => destruct (Z.compare_spec a b)
  | |- context [Pos.compare_cont Eq ?a ?b] =>
      change (Pos.compare_cont Eq a b) with (Pos.compare a b);
      destruct (Pos.compare_spec a b)
  end.

Ltac order_solve :=
  unfold Float.lt, Float.gt, not_nan, SFleb, SFltb, SFeqb, SFcompare;
  repeat match goal with x : spec_float |- _ => destruct x as [[]|[]| |[] ? ?] end;
  cbn [CompOpp]; order_cases; cbn [CompOpp];
  intros; subst; try congruence; try lia.

Lemma leb_refl x : not_nan x -> SFleb x x = true.
Proof. order_solve. Qed.

Lemma ltb_irrefl x : SFltb x x = false.
Proof. order_solve. Qed.

Lemma ltb_leb x y : SFltb x y = true -> SFleb x y = true.
Proof. order_solve. Qed.

Lemma not_ltb_leb x y : not_nan x -> not_nan y -> SFltb x y = false -> SFleb y x = true.
Proof. order_solve. Qed.

Lemma leb_not_ltb x y : SFleb x y = true -> SFltb y x = false.
Proof. order_solve. Qed.

Lemma leb_trans x y z : SFleb x y = true -> SFleb y z = true -> SFleb x z = true.
Proof. order_solve. Qed.

Lemma ltb_leb_trans x y z : SFltb x y = true -> SFleb y z = true -> SFltb x z = true.
Proof. order_solve. Qed.

Lemma leb_ltb_trans x y z : SFleb x y = true -> SFltb y z = true -> SFltb x z = true.
Proof. order_solve. Qed.

(** *** No division of the program yields a NaN *)

Lemma iter_pos_invariant {A : Type} (P : A -> Prop) (f : A -> A) :
  (forall x, P x -> P (f x)) -> forall p x, P x -> P (iter_pos f p x).
Proof.
  intros Hf. induction p as [p IH|p IH|]; intros x Hx; simpl; auto.
Qed.

Lemma shr_1_nonneg mrs : 0 <= shr_m mrs -> 0 <= shr_m (shr_1 mrs).
Proof.
  destruct mrs as [[|[p|p|]|p] r s]; simpl; lia.
Qed.

Lemma shr_nonneg mrs e n : 0 <= shr_m mrs -> 0 <= shr_m (fst (shr mrs e n)).
Proof.
  intros H. destruct n as [|p|p]; simpl; trivial.
  apply (iter_pos_invariant (fun x => 0 <= shr_m x)); trivial.
  apply shr_1_nonneg.
Qed.

Lemma shr_record_of_loc_m m l : shr_m (shr_record_of_loc m l) = m.
Proof. destruct l as [|[]]; reflexivity. Qed.

Lemma shr_fexp_nonneg p ex m e l :
  0 <= m -> 0 <= shr_m (fst (shr_fexp p ex m e l)).
Proof.
  intros H. unfold shr_fexp. apply shr_nonneg.
  rewrite shr_record_of_loc_m. exact H.
Qed.

Lemma round_nearest_even_nonneg m l : 0 <= m -> 0 <= round_nearest_even m l.
Proof.
  intros H. destruct l as [|[]]; simpl; try lia. destruct (Z.even m); lia.
Qed.

Lemma binary_round_aux_not_nan s m e l :
  0 <= m -> not_nan (binary_round_aux Float.prec Float.emax s m e l).
Proof.
  intros H. unfold binary_round_aux.
  pose proof (shr_fexp_nonneg Float.prec Float.emax m e l H) as H1.
  destruct (shr_fexp Float.prec Float.emax m e l) as [mrs' e'].
  simpl in H1.
  pose proof (shr_fexp_nonneg Float.prec Float.emax _ e' loc_Exact
                (round_nearest_even_nonneg _ (loc_of_shr_record mrs') H1)) as H2.
  destruct (shr_fexp Float.prec Float.emax _ e' loc_Exact) as [mrs'' e''].
  simpl in H2. unfold not_nan.
  destruct (shr_m mrs'') as [|q|q]; try discriminate; [|lia].
  destruct (_ <=? _); discriminate.
Qed.

Lemma div_core_quotient m1 e1 m2 e2 :
  0 <= m1 -> 0 < m2 ->
  0 <= fst (fst (SFdiv_core_binary Float.prec Float.emax m1 e1 m2 e2)).
Proof.
  intros H1 H2. unfold SFdiv_core_binary.
  set (s := _ - _ - _).
  set (m' := match s with Z0 => m1 | Zpos _ => Z.shiftl m1 s | Zneg _ => 0 end).
  assert (0 <= m') as Hm.
  { subst m'. destruct s; try lia. apply Z.shiftl_nonneg. exact H1. }
  pose proof (Z.div_pos m' m2 Hm H2) as D. unfold Z.div in D.
  destruct (Z.div_eucl m' m2) as [q r]. exact D.
Qed.

Lemma div_nat_not_nan s a b : 0 <= a -> 0 < b -> not_nan (Float.div_nat s a b).
Proof.
  intros Ha Hb. unfold Float.div_nat.
  pose proof (div_core_quotient a 0 b 0 Ha Hb) as Q.
  destruct (SFdiv_core_binary Float.prec Float.emax a 0 b 0) as [[q e] l].
  apply binary_round_aux_not_nan, Q.
Qed.

Lemma int_truediv_not_nan a b x : Float.int_truediv a b = Some x -> not_nan x.
Proof.
  unfold Float.int_truediv. destruct (Z.eqb_spec b 0); [discriminate|].
  intros [= <-]. apply div_nat_not_nan; lia.
Qed.

Lemma tenths_nonneg m e : 0 <= Float.tenths m e.
Proof.
  unfold Float.tenths.
  assert (forall k, 0 <= 10 * Zpos m * 2 ^ k) as P.
  { intros k. apply Z.mul_nonneg_nonneg; [lia | apply Z.pow_nonneg; lia]. }
  destruct e as [|p|p]; try apply P.
  assert (0 < Z.pow_pos 2 p) as D by (rewrite Z.pow_pos_fold; apply Z.pow_pos_nonneg; lia).
  pose proof (Z.div_pos (10 * Zpos m) (Z.pow_pos 2 p)) as Q.
  destruct (_ ?= _); [destruct (Z.even _)| |]; lia.
Qed.

Lemma round1_not_nan x : not_nan x -> not_nan (Float.round1 x).
Proof.
  destruct x as [s|s| |s m e]; simpl; trivial. intros _.
  apply div_nat_not_nan; [apply tenths_nonneg | lia].
Qed.

Lemma mean_not_nan gs x : mean gs = Some x -> not_nan x.
Proof. apply int_truediv_not_nan. Qed.

Lemma average_not_nan gs x : average gs = Some x -> not_nan x.
Proof.
  unfold average. destruct (mean gs) as [q|] eqn:E; simpl; [|discriminate].
  intros [= <-]. apply round1_not_nan, (mean_not_nan _ _ E).
Qed.

Lemma len_zero {A : Type} (l : list A) : len l = 0 <-> l = [].
Proof. unfold len. destruct l; simpl; split; intros; trivial; try lia; discriminate. Qed.

(** A mean is undefined exactly for the empty list of grades. *)
Lemma mean_none gs : mean gs = None <-> gs = [].
Proof.
  unfold mean, Float.int_truediv. rewrite <- len_zero.
  destruct (Z.eqb_spec (len gs) 0); split; intros; trivial; try discriminate; contradiction.
Qed.

Lemma average_none gs : average gs = None <-> gs = [].
Proof.
  rewrite <- mean_none. unfold average.
  destruct (mean gs); simpl; split; intros; trivial; discriminate.
Qed.

End FloatOrder.

(** ** Reporting *)

Section Reporting.

(** *** [max] with a key *)

Section MaxBy.
Context {A : Type} (key : A -> option spec_float).

Lemma max_from_stable xs : forall before maxitem maxval between,
  key maxitem = Some maxval -> not_nan maxval ->
  (forall s, In s before -> exists k, key s = Some k /\ SFltb k maxval = true) ->
  (forall s, In s between -> exists k, key s = Some k /\ SFleb k maxval = true) ->
  Forall (keyed key) xs ->
  exists top,
    Float.max_from key maxitem maxval xs = Some top
    /\ stable_max key (before ++ maxitem :: between ++ xs) top.
Proof.
  induction xs as [|item rest IH]; intros before m mv between Km Nm Hb Hl Hx.
  - exists m. split; [reflexivity|].
    exists before, between, mv. rewrite app_nil_r. auto.
  - inversion Hx as [|? ? (val & Kv & Nv) Hrest]; subst. simpl. rewrite Kv.
    unfold Float.gt. destruct (SFltb mv val) eqn:C.
    + destruct (IH (before ++ m :: between) item val [] Kv Nv) as (top & E & S); trivial.
      * intros s Hs. apply in_app_or in Hs. destruct Hs as [Hs|[<-|Hs]].
        -- destruct (Hb s Hs) as (k & Kk & L). exists k. split; trivial.
           apply (ltb_leb_trans _ mv); trivial. apply ltb_leb, C.
        -- exists mv. auto.
        -- destruct (Hl s Hs) as (k & Kk & L). exists k. split; trivial.
           apply (leb_ltb_trans _ mv); trivial.
      * intros s [].
      * exists top. split; trivial.
        simpl in S. rewrite <- app_assoc in S. exact S.
    + destruct (IH before m mv (between ++ [item]) Km Nm Hb) as (top & E & S); trivial.
      * intros s Hs. apply in_app_or in Hs. destruct Hs as [Hs|[<-|[]]]; auto.
        exists val. split; trivial. apply not_ltb_leb; trivial.
      * exists top. split; trivial.
        rewrite <- app_assoc in S. exact S.
Qed.

Lemma max_by_stable x xs :
  Forall (keyed key) (x :: xs) ->
  exists top, Float.max_by key x xs = Some top /\ stable_max key (x :: xs) top.
Proof.
  intros H. inversion H as [|? ? (k & Kx & Nx) Hxs]; subst.
  unfold Float.max_by. rewrite Kx.
  destruct (max_from_stable xs [] x k [] Kx Nx) as (top & E & S); trivial;
    try (intros s []).
  exists top. split; trivial.
Qed.

End MaxBy.

(** *** [max] and [min] of floats *)

Lemma max_greatest xs : forall x seen,
  Forall not_nan (x :: xs) -> In x seen ->
  (forall y, In y seen -> SFleb y x = true) ->
  greatest (seen ++ xs) (Float.max x xs).
Proof.
  induction xs as [|item rest IH]; intros x seen H I L.
  - rewrite app_nil_r. split; trivial.
  - inversion H as [|? ? Nx H']; subst. inversion H' as [|? ? Ni Hr]; subst.
    unfold Float.max; simpl. unfold Float.gt.
    replace (seen ++ item :: rest) with ((seen ++ [item]) ++ rest)
      by (rewrite <- app_assoc; reflexivity).
    destruct (SFltb x item) eqn:C.
    + apply IH.
      * constructor; trivial.
      * apply in_or_app. right. left. reflexivity.
      * intros y Hy. apply in_app_or in Hy. destruct Hy as [Hy|[<-|[]]].
        -- apply (leb_trans _ x); auto. apply ltb_leb, C.
        -- apply leb_refl, Ni.
    + apply IH.
      * constructor; trivial.
      * apply in_or_app. left. exact I.
      * intros y Hy. apply in_app_or in Hy. destruct Hy as [Hy|[<-|[]]]; auto.
        apply not_ltb_leb; trivial.
Qed.


Lemma max_is_greatest x xs :
  Forall not_nan (x :: xs) -> greatest (x :: xs) (Float.max x xs).
Proof.
  intros H. apply (max_greatest xs x [x] H); [left; reflexivity|].
  intros y [<-|[]]. apply leb_refl. inversion H; trivial.
Qed.


(** *** show_report *)

Lemma report_fold studs : forall evs avgs,
  fold_left report_student studs (evs, avgs)
  = (evs ++ map student_line studs, avgs ++ averages_of studs).
Proof.
  induction studs as [|s studs IH]; intros evs avgs; simpl.
  - rewrite !app_nil_r. reflexivity.
  - unfold student_line, averages_of in *. simpl.
    destruct (average (grades s)) as [a|]; rewrite IH, <- !app_assoc; reflexivity.
Qed.

Lemma show_report_shape studs :
  studs <> [] ->
  show_report studs
  = report_title :: map student_line studs ++ summary (averages_of studs).
Proof.
  intros N. unfold show_report. destruct studs as [|s studs]; [contradiction|].
  rewrite report_fold. reflexivity.
Qed.

Lemma has_grades_true s : has_grades s = true <-> grades s <> [].
Proof. unfold has_grades. destruct (grades s); split; congruence. Qed.

Lemma has_grades_false s : has_grades s = false <-> grades s = [].
Proof. unfold has_grades. destruct (grades s); split; congruence. Qed.

Lemma has_grades_average s : has_grades s = true -> exists a, average (grades s) = Some a.
Proof.
  intros H. destruct (average (grades s)) as [a|] eqn:E; [eauto|].
  apply average_none in E. apply has_grades_true in H. contradiction.
Qed.

(** The averages collected are those of the students with a grade. *)
Lemma averages_of_graded studs :
  map Some (averages_of studs)
  = map (fun s => average (grades s)) (filter has_grades studs).
Proof.
  induction studs as [|s studs IH]; simpl; trivial.
  unfold averages_of in *. simpl. destruct (has_grades s) eqn:H.
  - destruct (has_grades_average s H) as [a E]. rewrite E. simpl. rewrite IH. rewrite E.
    reflexivity.
  - apply has_grades_false, average_none in H. rewrite H. simpl. exact IH.
Qed.

Lemma averages_of_nil studs :
  averages_of studs = [] <-> filter has_grades studs = [].
Proof.
  pose proof (averages_of_graded studs) as E.
  destruct (averages_of studs), (filter has_grades studs); simpl in E;
    split; intros; trivial; discriminate.
Qed.

Lemma averages_of_not_nan studs : Forall not_nan (averages_of studs).
Proof.
  induction studs as [|s studs IH]; simpl; [constructor|].
  unfold averages_of in *. simpl.
  destruct (average (grades s)) as [a|] eqn:E; simpl; trivial.
  constructor; trivial. apply (average_not_nan _ _ E).
Qed.

(** *** find_top_performer *)

Lemma graded_keyed studs :
  Forall (keyed (fun s => mean (grades s))) (filter has_grades studs).
Proof.
  apply Forall_forall. intros s H. apply filter_In in H. destruct H as [_ H].
  destruct (mean (grades s)) as [k|] eqn:E.
  - exists k. split; trivial. apply (mean_not_nan _ _ E).
  - apply mean_none in E. apply has_grades_true in H. contradiction.
Qed.

Lemma top_student_stable studs :
  filter has_grades studs <> [] ->
  exists top,
    top_student (filter has_grades studs) = Some top
    /\ stable_max (fun s => mean (grades s)) (filter has_grades studs) top.
Proof.
  intros N. pose proof (graded_keyed studs) as K.
  destruct (filter has_grades studs) as [|s rest]; [contradiction|].
  apply max_by_stable, K.
Qed.

Lemma stable_max_in {A : Type} (key : A -> option spec_float) l top :
  stable_max key l top -> In top l.
Proof.
  intros (b & a & k & -> & _). apply in_or_app. right. left. reflexivity.
Qed.

Lemma find_top_performer_shape studs :
  match studs, filter has_grades studs with
  | [], _ => find_top_performer studs = Some [no_students]
  | _, [] => find_top_performer studs = Some [no_grades]
  | _, _ =>
      exists top q,
        stable_max (fun s => mean (grades s)) (filter has_grades studs) top
        /\ mean (grades top) = Some q
        /\ find_top_performer studs = Some [top_line (name top) (Float.round1 q)]
  end.
Proof.
  destruct studs as [|s0 studs]; [reflexivity|].
  unfold find_top_performer.
  pose proof (top_student_stable (s0 :: studs)) as T.
  destruct (filter has_grades (s0 :: studs)) as [|s rest]; [reflexivity|].
  destruct T as (top & -> & S); [discriminate|].
  pose proof S as (_ & _ & q & _ & Q & _).
  exists top, q. repeat split; trivial.
  unfold average. rewrite Q. reflexivity.
Qed.

Lemma find_top_performer_returns studs : find_top_performer studs <> None.
Proof.
  pose proof (find_top_performer_shape studs) as H.
  destruct studs as [|s0 studs]; [rewrite H; discriminate|].
  destruct (filter has_grades (s0 :: studs)); [rewrite H; discriminate|].
  destruct H as (top & q & _ & _ & ->). discriminate.
Qed.

End Reporting.

(** ** Floats and exact arithmetic

    The quotient that [Float.div_nat] returns is within half a unit in the
    last place of the exact quotient.  The proof follows the rounding code
    of the standard library for a quotient of 53 or 54 bits, which is what
    the division produces when the result is a normal number. *)

Section FloatExact.

(** *** Number of bits *)

Lemma digits2_pos_bounds p :
  2 ^ (Zpos (digits2_pos p) - 1) <= Zpos p < 2 ^ Zpos (digits2_pos p).
Proof.
  induction p as [p IH|p IH|]; simpl digits2_pos.
  - rewrite Pos2Z.inj_succ.
    replace (Z.succ (Zpos (digits2_pos p)) - 1) with (Z.succ (Zpos (digits2_pos p) - 1)) by lia.
    rewrite !Z.pow_succ_r by lia. lia.
  - rewrite Pos2Z.inj_succ.
    replace (Z.succ (Zpos (digits2_pos p)) - 1) with (Z.succ (Zpos (digits2_pos p) - 1)) by lia.
    rewrite !Z.pow_succ_r by lia. lia.
  - simpl. lia.
Qed.

Lemma Zdigits2_bounds m :
  0 < m -> 2 ^ (Zdigits2 m - 1) <= m < 2 ^ Zdigits2 m.
Proof.
  destruct m as [|p|p]; try lia. intros _. apply digits2_pos_bounds.
Qed.

Lemma Zdigits2_pos m : 0 < m -> 0 < Zdigits2 m.
Proof. destruct m; simpl; lia. Qed.

Lemma Zdigits2_unique m n :
  0 < n -> 2 ^ (n - 1) <= m < 2 ^ n -> Zdigits2 m = n.
Proof.
  intros Hn [L U].
  assert (0 < m) as Hm by (pose proof (Z.pow_nonneg 2 (n - 1)); lia).
  pose proof (Zdigits2_bounds m Hm) as [L' U'].
  pose proof (Zdigits2_pos m Hm) as P.
  destruct (Z.lt_trichotomy (Zdigits2 m) n) as [C|[C|C]]; trivial; exfalso.
  - assert (2 ^ Zdigits2 m <= 2 ^ (n - 1)) by (apply Z.pow_le_mono_r; lia). lia.
  - assert (2 ^ n <= 2 ^ (Zdigits2 m - 1)) by (apply Z.pow_le_mono_r; lia). lia.
Qed.

(** *** Where the remainder of a division lies *)

Lemma new_location_spec b r :
  0 <= r < b ->
  new_location b r = if r =? 0 then loc_Exact else loc_Inexact (2 * r ?= b).
Proof.
  intros H. unfold new_location, new_location_even, new_location_odd.
  destruct (Z.even b) eqn:E; trivial.
  destruct (r =? 0); trivial. f_equal.
  assert (Z.odd b = true) as O by (rewrite <- Z.negb_even, E; reflexivity).
  apply Z.odd_spec in O. destruct O as [k ->].
  destruct (Z.compare_spec (2 * r + 1) (2 * k + 1)), (Z.compare_spec (2 * r) (2 * k + 1));
    trivial; lia.
Qed.

Lemma loc_of_shr_record_of_loc m l : loc_of_shr_record (shr_record_of_loc m l) = l.
Proof. destruct l as [|[]]; reflexivity. Qed.

(** *** The shifts of [binary_round_aux] *)

Lemma fexp_normal e : -1074 <= e - 53 -> fexp Float.prec Float.emax e = e - 53.
Proof. intros H. unfold fexp, emin, Float.prec, Float.emax. lia. Qed.

Lemma shr_fexp_53 m e l :
  2 ^ 52 <= m < 2 ^ 53 -> -1074 <= e ->
  shr_fexp Float.prec Float.emax m e l = (shr_record_of_loc m l, e).
Proof.
  intros Hm He. unfold shr_fexp.
  rewrite (Zdigits2_unique m 53) by (trivial; lia).
  rewrite fexp_normal by lia.
  replace (53 + e - 53 - e) with 0 by lia. reflexivity.
Qed.

Lemma shr_fexp_54 m e l :
  2 ^ 53 <= m < 2 ^ 54 -> -1075 <= e ->
  shr_fexp Float.prec Float.emax m e l = (shr_1 (shr_record_of_loc m l), e + 1).
Proof.
  intros Hm He. unfold shr_fexp.
  rewrite (Zdigits2_unique m 54) by (trivial; lia).
  rewrite fexp_normal by lia.
  replace (54 + e - 53 - e) with 1 by lia. reflexivity.
Qed.

Lemma binary_round_aux_pack s m e l :
  binary_round_aux Float.prec Float.emax s m e l
  = let '(mrs, e') := shr_fexp Float.prec Float.emax m e l in
    pack s (round_nearest_even (shr_m mrs) (loc_of_shr_record mrs)) e'.
Proof. reflexivity. Qed.

Lemma pack_rounds s m1 e t n b :
  2 ^ 52 <= m1 <= 2 ^ 53 -> -1074 <= e + t <= 970 -> 0 <= t <= 1 -> 0 < b ->
  2 * Z.abs (m1 * 2 ^ t * b - n) <= 2 ^ t * b ->
  rounds_to (pack s m1 (e + t)) s e n b.
Proof.
  intros Hm He Ht Hb Hn. unfold pack.
  destruct (Z.eq_dec m1 (2 ^ 53)) as [->|D].
  - rewrite shr_fexp_54 by lia. simpl shr_m.
    replace (e + t + 1 <=? Float.emax - Float.prec) with true
      by (symmetry; apply Z.leb_le; unfold Float.emax, Float.prec; lia).
    exists 4503599627370496%positive, (t + 1).
    split; [f_equal; lia|]. split; [lia|]. split; [lia|].
    rewrite Z.pow_add_r by lia.
    change (Z.pos 4503599627370496) with (2 ^ 52). change (2 ^ 53) with (2 ^ 52 * 2) in Hn.
    change (2 ^ 1) with 2. nia.
  - rewrite shr_fexp_53 by lia. simpl shr_m.
    destruct m1 as [|p|p]; try lia.
    replace (e + t <=? Float.emax - Float.prec) with true
      by (symmetry; apply Z.leb_le; unfold Float.emax, Float.prec; lia).
    exists p, t. repeat split; trivial; lia.
Qed.

Lemma round_nearest_even_exact q r b :
  0 <= r < b ->
  let m1 := round_nearest_even q (new_location b r) in
  q <= m1 <= q + 1 /\ 2 * Z.abs (m1 * b - (q * b + r)) <= b.
Proof.
  intros H. rewrite new_location_spec by trivial.
  destruct (Z.eqb_spec r 0) as [->|D]; cbn [round_nearest_even]; [lia|].
  destruct (Z.compare_spec (2 * r) b); cbn [round_nearest_even];
    [destruct (Z.even q)| |]; lia.
Qed.

(** A quotient of 53 or 54 bits, with its remainder, is rounded to the
    nearest float. *)
Lemma binary_round_aux_rounds s q e b r :
  2 ^ 52 <= q < 2 ^ 54 -> -1074 <= e <= 900 -> 0 <= r < b ->
  rounds_to (binary_round_aux Float.prec Float.emax s q e (new_location b r))
            s e (q * b + r) b.
Proof.
  intros Hq He Hr. rewrite binary_round_aux_pack.
  destruct (Z_lt_le_dec q (2 ^ 53)) as [C|C].
  - rewrite shr_fexp_53 by lia.
    rewrite loc_of_shr_record_of_loc, shr_record_of_loc_m.
    pose proof (round_nearest_even_exact q r b Hr) as [B E].
    replace e with (e + 0) at 1 by lia.
    apply pack_rounds; lia.
  - rewrite shr_fexp_54 by lia.
    rewrite new_location_spec by trivial.
    destruct q as [|[h|h|]|h]; try lia.
    + (* odd quotient *)
      assert (2 ^ 52 <= Zpos h < 2 ^ 53) as Hh by lia.
      destruct (Z.eqb_spec r 0) as [->|D];
        [|destruct (Z.compare_spec (2 * r) b)]; simpl shr_1; cbn [shr_m loc_of_shr_record];
        cbn [round_nearest_even orb];
        try (destruct (Z.even (Z.pos h)));
        apply pack_rounds; try lia; change (2 ^ 1) with 2; lia.
    + (* even quotient *)
      assert (2 ^ 52 <= Zpos h < 2 ^ 53) as Hh by lia.
      destruct (Z.eqb_spec r 0) as [->|D];
        [|destruct (Z.compare_spec (2 * r) b)]; simpl shr_1; cbn [shr_m loc_of_shr_record];
        cbn [round_nearest_even orb];
        apply pack_rounds; try lia; change (2 ^ 1) with 2; lia.
Qed.

(** *** The division of two integers *)

Lemma div_eucl_spec a b :
  0 < b -> let '(q, r) := Z.div_eucl a b in a = q * b + r /\ 0 <= r < b.
Proof.
  intros Hb. pose proof (Z_div_mod a b ltac:(lia)) as H.
  destruct (Z.div_eucl a b) as [q r]. lia.
Qed.

(** The division shifts [a] by [k] bits, so that the quotient by [b] has
    53 or 54 bits, and rounds that quotient. *)
Lemma div_nat_core s a b :
  0 < a -> 0 < b -> a <= 1024 * b -> b < 2 ^ 64 ->
  exists k q r,
    43 <= k <= 116
    /\ a * 2 ^ k = q * b + r /\ 0 <= r < b
    /\ 2 ^ 52 <= q < 2 ^ 54
    /\ Float.div_nat s a b
       = binary_round_aux Float.prec Float.emax s q (- k) (new_location b r).
Proof.
  intros Ha Hb Hab Hb64.
  set (k := 53 + Zdigits2 b - Zdigits2 a).
  pose proof (Zdigits2_bounds a Ha) as [La Ua].
  pose proof (Zdigits2_bounds b Hb) as [Lb Ub].
  pose proof (Zdigits2_pos a Ha) as Pa.
  pose proof (Zdigits2_pos b Hb) as Pb.
  assert (Zdigits2 b <= 64) as D64.
  { destruct (Z_le_gt_dec (Zdigits2 b) 64); trivial.
    assert (2 ^ 64 <= 2 ^ (Zdigits2 b - 1)) by (apply Z.pow_le_mono_r; lia). lia. }
  assert (Zdigits2 a <= Zdigits2 b + 10) as D10.
  { destruct (Z_le_gt_dec (Zdigits2 a) (Zdigits2 b + 10)); trivial.
    assert (2 ^ (Zdigits2 b + 10) <= 2 ^ (Zdigits2 a - 1)) by (apply Z.pow_le_mono_r; lia).
    rewrite Z.pow_add_r in H by lia. change (2 ^ 10) with 1024 in H. lia. }
  assert (43 <= k <= 116) as Hk by (subst k; lia).
  unfold Float.div_nat, SFdiv_core_binary.
  rewrite !Z.add_0_r, Z.sub_0_r.
  rewrite fexp_normal by lia.
  replace (Z.min (Zdigits2 a - Zdigits2 b - 53) 0) with (- k) by (subst k; lia).
  replace (0 - - k) with k by lia.
  destruct k as [|pk|pk] eqn:Ek; try lia. rewrite <- Ek in *.
  rewrite Z.shiftl_mul_pow2 by lia.
  pose proof (div_eucl_spec (a * 2 ^ k) b Hb) as E.
  destruct (Z.div_eucl (a * 2 ^ k) b) as [q r]. destruct E as [E R].
  exists k, q, r.
  assert (2 ^ (Zdigits2 a - 1) * 2 ^ k = 2 ^ 53 * 2 ^ (Zdigits2 b - 1)) as Pw.
  { rewrite <- !Z.pow_add_r by lia. f_equal. lia. }
  assert (2 ^ Zdigits2 b = 2 * 2 ^ (Zdigits2 b - 1)) as Pb2.
  { rewrite <- Z.pow_succ_r by lia. f_equal. lia. }
  assert (2 ^ Zdigits2 a = 2 * 2 ^ (Zdigits2 a - 1)) as Pa2.
  { rewrite <- Z.pow_succ_r by lia. f_equal. lia. }
  assert (0 < 2 ^ k) as PK by (apply Z.pow_pos_nonneg; lia).
  repeat split; trivial; try lia.
  - assert (2 ^ 52 * b < q * b + b) by nia. nia.
  - assert (q * b < 2 ^ 54 * b) by nia. nia.
Qed.

Lemma div_nat_rounds s a b :
  0 < a -> 0 < b -> a <= 1024 * b -> b < 2 ^ 64 ->
  exists k, 43 <= k /\ rounds_to (Float.div_nat s a b) s (- k) (a * 2 ^ k) b.
Proof.
  intros Ha Hb Hab Hb64.
  destruct (div_nat_core s a b Ha Hb Hab Hb64) as (k & q & r & Hk & E & R & Q & ->).
  exists k. split; [lia|]. rewrite E.
  apply binary_round_aux_rounds; trivial. lia.
Qed.

Lemma pow2_ge_46 k : 0 <= k -> 2 ^ 45 < 2 ^ k -> 46 <= k.
Proof.
  intros Hk H. destruct (Z_le_gt_dec 46 k); trivial.
  assert (2 ^ k <= 2 ^ 45) by (apply Z.pow_le_mono_r; lia). lia.
Qed.

Lemma div_nat_close s a b :
  0 < a -> 0 < b -> a <= 100 * b -> b < 2 ^ 64 ->
  close_to (Float.div_nat s a b) s a b.
Proof.
  intros Ha Hb Hab Hb64.
  destruct (div_nat_rounds s a b Ha Hb ltac:(lia) Hb64) as (k0 & Hk & m & t & E & Ht & Hm & Hn).
  exists m, (k0 - t).
  assert (0 < 2 ^ t) as Pt by (apply Z.pow_pos_nonneg; lia).
  assert (0 <= k0 - t) as Hkt by lia.
  assert (2 ^ k0 = 2 ^ (k0 - t) * 2 ^ t) as Pk.
  { rewrite <- Z.pow_add_r by lia. f_equal. lia. }
  assert (0 < 2 ^ (k0 - t)) as Pkt by (apply Z.pow_pos_nonneg; lia).
  rewrite Pk in Hn.
  assert (2 * Z.abs (Zpos m * b - a * 2 ^ (k0 - t)) <= b) as Err.
  { replace (Z.pos m * 2 ^ t * b - a * (2 ^ (k0 - t) * 2 ^ t))
      with ((Z.pos m * b - a * 2 ^ (k0 - t)) * 2 ^ t) in Hn by ring.
    rewrite Z.abs_mul, (Z.abs_eq (2 ^ t)) in Hn by lia. nia. }
  split; [rewrite E; f_equal; lia|].
  split; [|split; trivial].
  apply pow2_ge_46; trivial.
  assert (2 ^ 53 * b <= 2 * (a * 2 ^ (k0 - t)) + b) by nia.
  assert (2 ^ 53 * b <= 200 * b * 2 ^ (k0 - t) + b) by nia.
  assert (2 ^ 53 - 1 <= 200 * 2 ^ (k0 - t)) by nia.
  lia.
Qed.

(** The tenths of such a float: the integer nearest to [10 * a / b]. *)
Lemma tenths_rounds m k :
  0 < k ->
  let n := Float.tenths m (- k) in
  2 * Z.abs (n * 2 ^ k - 10 * Zpos m) <= 2 ^ k.
Proof.
  intros Hk. destruct k as [|p|p]; try lia.
  change (- Zpos p) with (Zneg p). unfold Float.tenths. cbv zeta.
  rewrite Z.pow_pos_fold.
  assert (0 < 2 ^ Zpos p) as PD by (apply Z.pow_pos_nonneg; lia).
  pose proof (Z.div_mod (10 * Zpos m) (2 ^ Zpos p) ltac:(lia)) as E.
  pose proof (Z.mod_pos_bound (10 * Zpos m) (2 ^ Zpos p) PD) as R.
  set (q := 10 * Zpos m / 2 ^ Zpos p) in *.
  set (r := (10 * Zpos m) mod 2 ^ Zpos p) in *.
  destruct (Z.compare_spec (2 * r) (2 ^ Zpos p)); [destruct (Z.even q)| |]; nia.
Qed.

Lemma tenths_nearest x s a b :
  close_to x s a b -> 0 < b -> b < 2 ^ 42 ->
  exists m k, x = S754_finite s m (- k) /\ 0 < k
    /\ 2 * Z.abs (Float.tenths m (- k) * b - 10 * a) <= b.
Proof.
  intros (m & k & -> & Hk & Hm & Err) Hb Hb42.
  exists m, k. split; trivial. split; [lia|].
  pose proof (tenths_rounds m k ltac:(lia)) as T. cbv zeta in T.
  set (n := Float.tenths m (- k)) in *.
  assert (2 ^ 46 <= 2 ^ k) as P46 by (apply Z.pow_le_mono_r; lia).
  change (2 ^ 42) with 4398046511104 in Hb42.
  change (2 ^ 46) with 70368744177664 in P46.
  set (D := 2 ^ k) in *.
  assert (2 * Z.abs ((n * b - 10 * a) * D) <= b * D + 10 * b) as H.
  { replace ((n * b - 10 * a) * D)
      with (b * (n * D - 10 * Zpos m) + 10 * (Zpos m * b - a * D)) by ring.
    pose proof (Z.abs_triangle (b * (n * D - 10 * Zpos m)) (10 * (Zpos m * b - a * D))) as Tr.
    rewrite !Z.abs_mul in Tr. rewrite (Z.abs_eq b), (Z.abs_eq 10) in Tr by lia.
    nia. }
  rewrite Z.abs_mul, (Z.abs_eq D) in H by lia.
  assert (2 * Z.abs (n * b - 10 * a) * D < (b + 1) * D) by nia.
  assert (2 * Z.abs (n * b - 10 * a) < b + 1) by nia.
  lia.
Qed.

(** The float nearest to [n / 10] prints as [n] tenths. *)
Lemma tenths_of_close m k n s :
  close_to (S754_finite s m (- k)) s n 10 -> Float.tenths m (- k) = n.
Proof.
  intros (m' & k' & E & Hk & Hm & Err). injection E as <- K.
  assert (k = k') as <- by lia. clear K.
  pose proof (tenths_rounds m k ltac:(lia)) as T. cbv zeta in T.
  set (t := Float.tenths m (- k)) in *.
  assert (2 ^ 46 <= 2 ^ k) as P46 by (apply Z.pow_le_mono_r; lia).
  change (2 ^ 46) with 70368744177664 in P46.
  set (D := 2 ^ k) in *.
  assert (2 * Z.abs ((t - n) * D) <= D + 10) as H.
  { replace ((t - n) * D) with ((t * D - 10 * Zpos m) + (Zpos m * 10 - n * D)) by ring.
    pose proof (Z.abs_triangle (t * D - 10 * Zpos m) (Zpos m * 10 - n * D)). lia. }
  rewrite Z.abs_mul, (Z.abs_eq D) in H by lia.
  assert (Z.abs (t - n) < 1) by nia. lia.
Qed.

Lemma repr_div10 n :
  0 <= n <= 1000 -> Float.repr (Float.div_nat false n 10) = one_decimal n.
Proof.
  intros H. destruct (Z.eq_dec n 0) as [->|D]; [reflexivity|].
  pose proof (div_nat_close false n 10 ltac:(lia) ltac:(lia) ltac:(lia) ltac:(lia)) as C.
  pose proof C as (m & k & E & _). rewrite E in C |- *.
  unfold Float.repr. rewrite (tenths_of_close _ _ _ _ C). reflexivity.
Qed.

(** *** Zero *)

Lemma shr_zero e n :
  shr {| shr_m := 0; shr_r := false; shr_s := false |} e n
  = ({| shr_m := 0; shr_r := false; shr_s := false |}, match n with Zpos _ => e + n | _ => e end).
Proof.
  destruct n as [|p|p]; simpl; trivial. f_equal.
  apply (iter_pos_invariant (fun x => x = {| shr_m := 0; shr_r := false; shr_s := false |}));
    trivial.
  intros x ->. reflexivity.
Qed.

Lemma binary_round_aux_zero s e :
  binary_round_aux Float.prec Float.emax s 0 e loc_Exact = S754_zero s.
Proof.
  unfold binary_round_aux, shr_fexp. simpl shr_record_of_loc. rewrite shr_zero.
  cbn [shr_m loc_of_shr_record round_nearest_even]. simpl shr_record_of_loc.
  rewrite shr_zero. reflexivity.
Qed.

Lemma div_nat_zero s b : Float.div_nat s 0 b = S754_zero s.
Proof.
  unfold Float.div_nat, SFdiv_core_binary.
  assert (forall k, match k with Z0 => 0 | Zpos _ => Z.shiftl 0 k | Zneg _ => 0 end = 0) as Z0'.
  { intros [|p|p]; trivial. apply Z.shiftl_0_l. }
  rewrite Z0'. simpl Z.div_eucl. cbv iota.
  replace (new_location b 0) with loc_Exact
    by (unfold new_location; destruct (Z.even b); reflexivity).
  apply binary_round_aux_zero.
Qed.

(** *** The mean of a list of grades *)

Lemma total_from gs : forall acc, fold_left Z.add gs acc = acc + total gs.
Proof.
  unfold total. induction gs as [|g gs IH]; intros acc; simpl; [lia|].
  rewrite IH, (IH g). lia.
Qed.

Lemma total_cons g gs : total (g :: gs) = g + total gs.
Proof. unfold total at 1. simpl. apply total_from. Qed.

Lemma len_cons {A : Type} (x : A) l : len (x :: l) = 1 + len l.
Proof. unfold len. simpl List.length. lia. Qed.

Lemma total_bounds gs : Forall grade_ok gs -> 0 <= total gs <= 100 * len gs.
Proof.
  induction 1 as [|g gs G _ IH].
  - unfold total, len; simpl; lia.
  - rewrite total_cons, len_cons. unfold grade_ok in G. lia.
Qed.

Lemma len_pos {A : Type} (l : list A) : l <> [] -> 0 < len l.
Proof. destruct l; [contradiction|]. intros _. rewrite len_cons. unfold len. lia. Qed.

Lemma mean_value gs :
  gs <> [] -> 0 <= total gs ->
  mean gs = Some (Float.div_nat false (total gs) (len gs)).
Proof.
  intros N T. pose proof (len_pos gs N) as L.
  unfold mean, Float.int_truediv.
  destruct (Z.eqb_spec (len gs) 0); [lia|].
  destruct (Z.ltb_spec (total gs) 0), (Z.ltb_spec (len gs) 0); try lia.
  rewrite !Z.abs_eq by lia. reflexivity.
Qed.

(** The average of the report is the float nearest to [n / 10], where
    [n / 10] is a nearest decimal to the exact mean; it prints as that
    decimal. *)
Lemma average_exact gs :
  gs <> [] -> Forall grade_ok gs -> len gs < 2 ^ 42 ->
  exists n,
    nearest_tenth gs n /\ 0 <= n <= 1000
    /\ average gs = Some (Float.div_nat false n 10)
    /\ Float.repr (Float.div_nat false n 10) = one_decimal n.
Proof.
  intros N G L. pose proof (total_bounds gs G) as [T0 T1].
  pose proof (len_pos gs N) as Lp.
  unfold average. rewrite (mean_value gs N T0). simpl option_map.
  destruct (Z.eq_dec (total gs) 0) as [Z|Z].
  - rewrite Z, div_nat_zero. exists 0. unfold nearest_tenth. rewrite Z.
    repeat split; try lia; reflexivity.
  - assert (close_to (Float.div_nat false (total gs) (len gs)) false (total gs) (len gs)) as C.
    { apply div_nat_close; try lia. }
    destruct (tenths_nearest _ _ _ _ C Lp L) as (m & k & E & Hk & Hn).
    rewrite E. simpl Float.round1.
    exists (Float.tenths m (- k)).
    pose proof (tenths_nonneg m (- k)) as P.
    assert (Float.tenths m (- k) <= 1000) as U.
    { set (n := Float.tenths m (- k)) in *. nia. }
    repeat split; trivial. apply repr_div10. lia.
Qed.

(** *** The order of the means *)

(** Two floats that are close to [a / b] and to [c / d]: the order of the
    exact quotients is that of the floats, as long as the quotients are
    further apart than the two roundings together. *)
Lemma close_order m1 k1 m2 k2 a b c d :
  0 < b -> 0 < d -> b * d < 2 ^ 46 ->
  46 <= k1 -> 46 <= k2 ->
  2 * Z.abs (Zpos m1 * b - a * 2 ^ k1) <= b ->
  2 * Z.abs (Zpos m2 * d - c * 2 ^ k2) <= d ->
  a * d < c * b ->
  Zpos m1 * 2 ^ k2 < Zpos m2 * 2 ^ k1.
Proof.
  intros Hb Hd Hbd Hk1 Hk2 E1 E2 Lt.
  assert (2 ^ 46 <= 2 ^ k1) as P1 by (apply Z.pow_le_mono_r; lia).
  assert (2 ^ 46 <= 2 ^ k2) as P2 by (apply Z.pow_le_mono_r; lia).
  set (D1 := 2 ^ k1) in *. set (D2 := 2 ^ k2) in *.
  set (M1 := Zpos m1) in *. set (M2 := Zpos m2) in *.
  destruct (Z_lt_le_dec (M1 * D2) (M2 * D1)) as [C|C]; trivial. exfalso.
  assert (2 * M1 * b <= 2 * a * D1 + b) as U1 by lia.
  assert (2 * c * D2 - d <= 2 * M2 * d) as L2 by lia.
  assert (0 < D1) by lia. assert (0 < D2) by lia.
  assert (2 * M1 * b * (d * D2) <= (2 * a * D1 + b) * (d * D2)) as A1
    by (apply Z.mul_le_mono_nonneg_r; nia).
  assert ((2 * c * D2 - d) * (b * D1) <= 2 * M2 * d * (b * D1)) as A2
    by (apply Z.mul_le_mono_nonneg_r; nia).
  assert (2 * (M2 * D1) * (b * d) <= 2 * (M1 * D2) * (b * d)) as A3
    by (apply Z.mul_le_mono_nonneg_r; nia).
  assert ((a * d + 1) * (2 * (D1 * D2)) <= (c * b) * (2 * (D1 * D2))) as A4
    by (apply Z.mul_le_mono_nonneg_r; nia).
  assert (2 * (D1 * D2) <= b * d * D1 + b * d * D2) as A5 by lia.
  assert (b * d * D1 < D2 * D1) by (apply Z.mul_lt_mono_pos_r; lia).
  assert (b * d * D2 < D1 * D2) by (apply Z.mul_lt_mono_pos_r; lia).
  lia.
Qed.

Lemma close_ltb x y a b c d :
  close_to x false a b -> close_to y false c d ->
  0 < b -> 0 < d -> b * d < 2 ^ 46 -> a * d < c * b ->
  SFltb x y = true.
Proof.
  intros (m1 & k1 & -> & Hk1 & Hm1 & E1) (m2 & k2 & -> & Hk2 & Hm2 & E2) Hb Hd Hbd Lt.
  pose proof (close_order m1 k1 m2 k2 a b c d Hb Hd Hbd Hk1 Hk2 E1 E2 Lt) as O.
  unfold SFltb, SFcompare.
  change (Pos.compare_cont Eq m1 m2) with (Pos.compare m1 m2).
  destruct (Z.compare_spec (- k1) (- k2)) as [K|K|K]; trivial.
  - assert (k1 = k2) as <- by lia.
    assert (0 < 2 ^ k1) by (apply Z.pow_pos_nonneg; lia).
    destruct (Pos.compare_spec m1 m2) as [M|M|M]; trivial; exfalso; [subst; lia | nia].
  - exfalso.
    assert (2 ^ k2 = 2 ^ (k2 - k1) * 2 ^ k1) as P.
    { rewrite <- Z.pow_add_r by lia. f_equal. lia. }
    assert (2 ^ 1 <= 2 ^ (k2 - k1)) as Q by (apply Z.pow_le_mono_r; lia).
    change (2 ^ 1) with 2 in Q.
    assert (0 < 2 ^ k1) by (apply Z.pow_pos_nonneg; lia).
    rewrite P in O. nia.
Qed.

(** With valid grades, fewer than 2^23 each, the float means are ordered
    as the exact means. *)
Lemma mean_below_ltb gs1 gs2 x y :
  gs1 <> [] -> gs2 <> [] -> grades_ok gs1 -> grades_ok gs2 ->
  mean gs1 = Some x -> mean gs2 = Some y ->
  mean_below gs1 gs2 -> SFltb x y = true.
Proof.
  intros N1 N2 [G1 L1] [G2 L2] M1 M2 B. unfold mean_below in B.
  pose proof (total_bounds gs1 G1) as [T1 U1].
  pose proof (total_bounds gs2 G2) as [T2 U2].
  pose proof (len_pos gs1 N1) as P1. pose proof (len_pos gs2 N2) as P2.
  rewrite (mean_value gs1 N1 T1) in M1. rewrite (mean_value gs2 N2 T2) in M2.
  injection M1 as <-. injection M2 as <-.
  assert (0 < total gs2) as T2' by nia.
  assert (close_to (Float.div_nat false (total gs2) (len gs2)) false (total gs2) (len gs2)) as C2
    by (apply div_nat_close; lia).
  destruct (Z.eq_dec (total gs1) 0) as [Z|Z].
  - rewrite Z, div_nat_zero. destruct C2 as (m & k & -> & _). reflexivity.
  - assert (close_to (Float.div_nat false (total gs1) (len gs1)) false (total gs1) (len gs1)) as C1
      by (apply div_nat_close; lia).
    apply (close_ltb _ _ _ _ _ _ C1 C2); trivial.
    change (2 ^ 46) with (2 ^ 23 * 2 ^ 23). nia.
Qed.

(** *** The quotient depends on the ratio only *)

Lemma rne_scale u n b : 0 < u -> 0 < b -> rne (u * n) (u * b) = rne n b.
Proof.
  intros Hu Hb. unfold rne.
  rewrite Z.div_mul_cancel_l, Z.mul_mod_distr_l by lia.
  replace (2 * (u * (n mod b))) with (u * (2 * (n mod b))) by ring.
  rewrite <- Zmult_compare_compat_l by lia. reflexivity.
Qed.

Lemma rne_quotient q r b : 0 <= r < b ->
  rne (q * b + r) b
  = match 2 * r ?= b with
    | Lt => q
    | Gt => q + 1
    | Eq => if Z.even q then q else q + 1
    end.
Proof.
  intros H. unfold rne.
  assert ((q * b + r) / b = q) as Dq by (symmetry; apply (Z.div_unique _ b q r); lia).
  assert ((q * b + r) mod b = r) as Mq by (symmetry; apply (Z.mod_unique _ b q r); lia).
  rewrite Dq, Mq. reflexivity.
Qed.

Lemma round_nearest_even_rne q r b :
  0 <= r < b -> round_nearest_even q (new_location b r) = rne (q * b + r) b.
Proof.
  intros H. rewrite rne_quotient, new_location_spec by trivial.
  destruct (Z.eqb_spec r 0) as [->|D]; cbn [round_nearest_even].
  - destruct (Z.compare_spec (2 * 0) b); trivial; lia.
  - destruct (2 * r ?= b); reflexivity.
Qed.

Lemma pack_normal s m e :
  2 ^ 52 <= m <= 2 ^ 53 -> -1074 <= e <= 970 -> pack s m e = normal s m e.
Proof.
  intros Hm He. unfold pack, normal.
  destruct (Z.eqb_spec m (2 ^ 53)) as [->|D].
  - rewrite shr_fexp_54 by lia. simpl shr_m.
    replace (e + 1 <=? Float.emax - Float.prec) with true
      by (symmetry; apply Z.leb_le; unfold Float.emax, Float.prec; lia).
    reflexivity.
  - rewrite shr_fexp_53 by lia. simpl shr_m.
    destruct m as [|p|p]; try lia.
    replace (e <=? Float.emax - Float.prec) with true
      by (symmetry; apply Z.leb_le; unfold Float.emax, Float.prec; lia).
    reflexivity.
Qed.

Lemma rne_bounds n b lo :
  0 < b -> lo * b <= n < (lo + 1) * b -> lo <= rne n b <= lo + 1.
Proof.
  intros Hb H. unfold rne.
  assert (n / b = lo) as -> by (symmetry; apply (Z.div_unique n b lo (n - lo * b)); lia).
  destruct (_ ?= _); [destruct (Z.even lo)| |]; lia.
Qed.


(** A quotient of 53 bits is rounded as it is; one of 54 bits is rounded
    on its upper 53 bits. *)
Lemma binary_round_aux_53 s q e b r :
  2 ^ 52 <= q < 2 ^ 53 -> -1074 <= e <= 900 -> 0 <= r < b ->
  binary_round_aux Float.prec Float.emax s q e (new_location b r)
  = normal s (rne (q * b + r) b) e.
Proof.
  intros Hq He Hr. rewrite binary_round_aux_pack.
  rewrite shr_fexp_53 by lia.
  rewrite loc_of_shr_record_of_loc, shr_record_of_loc_m, round_nearest_even_rne by trivial.
  apply pack_normal; [|lia].
  pose proof (rne_bounds (q * b + r) b q ltac:(lia) ltac:(lia)). lia.
Qed.

Lemma binary_round_aux_54 s q e b r :
  2 ^ 53 <= q < 2 ^ 54 -> -1074 <= e <= 900 -> 0 <= r < b ->
  binary_round_aux Float.prec Float.emax s q e (new_location b r)
  = normal s (rne (q * b + r) (2 * b)) (e + 1).
Proof.
  intros Hq He Hr. rewrite binary_round_aux_pack.
  rewrite shr_fexp_54 by lia.
  rewrite new_location_spec by trivial.
  assert (forall h c, 0 <= c <= 1 -> rne ((2 * h + c) * b + r) (2 * b)
          = match 2 * (c * b + r) ?= 2 * b with
            | Lt => h | Gt => h + 1 | Eq => if Z.even h then h else h + 1 end) as R.
  { intros h c Hc.
    replace ((2 * h + c) * b + r) with (h * (2 * b) + (c * b + r)) by ring.
    apply rne_quotient. nia. }
  destruct q as [|[h|h|]|h]; try lia.
  - (* odd quotient *)
    assert (2 ^ 52 <= Zpos h < 2 ^ 53) as Hh by lia.
    replace (Z.pos h~1) with (2 * Zpos h + 1) by lia. rewrite (R _ 1) by lia.
    replace (Z.pos_sub 1 1) with 0 by reflexivity.
    destruct (Z.eqb_spec r 0) as [Z0|D];
      [|destruct (Z.compare_spec (2 * r) b)];
      simpl shr_1; cbn [shr_m loc_of_shr_record round_nearest_even orb];
      (destruct (Z.compare_spec (2 * (1 * b + r)) (2 * b)); try lia);
      try (destruct (Z.even (Z.pos h))); apply pack_normal; lia.
  - (* even quotient *)
    assert (2 ^ 52 <= Zpos h < 2 ^ 53) as Hh by lia.
    replace (Z.pos h~0) with (2 * Zpos h + 0) by lia. rewrite (R _ 0) by lia.
    destruct (Z.eqb_spec r 0) as [Z0|D];
      [|destruct (Z.compare_spec (2 * r) b)];
      simpl shr_1; cbn [shr_m loc_of_shr_record round_nearest_even orb];
      (destruct (Z.compare_spec (2 * (0 * b + r)) (2 * b)); try lia);
      apply pack_normal; lia.
Qed.

Lemma div_nat_rne s a b :
  0 < a -> 0 < b -> a <= 1024 * b -> b < 2 ^ 64 ->
  exists K,
    0 <= K /\ 2 ^ 52 * b <= a * 2 ^ K < 2 ^ 53 * b
    /\ Float.div_nat s a b = normal s (rne (a * 2 ^ K) b) (- K).
Proof.
  intros Ha Hb Hab Hb64.
  destruct (div_nat_core s a b Ha Hb Hab Hb64) as (k & q & r & Hk & E & R & Q & ->).
  destruct (Z_lt_le_dec q (2 ^ 53)) as [C|C].
  - exists k. split; [lia|]. split; [nia|].
    rewrite binary_round_aux_53, E by (trivial; lia). reflexivity.
  - exists (k - 1). split; [lia|].
    assert (2 ^ k = 2 * 2 ^ (k - 1)) as P.
    { rewrite <- Z.pow_succ_r by lia. f_equal. lia. }
    split; [nia|].
    rewrite binary_round_aux_54 by (trivial; lia).
    rewrite <- E, P.
    replace (a * (2 * 2 ^ (k - 1))) with (2 * (a * 2 ^ (k - 1))) by ring.
    rewrite rne_scale by lia. f_equal. lia.
Qed.

Lemma binade_unique a b K K' :
  0 < a -> 0 < b -> 0 <= K -> 0 <= K' ->
  2 ^ 52 * b <= a * 2 ^ K < 2 ^ 53 * b ->
  2 ^ 52 * b <= a * 2 ^ K' < 2 ^ 53 * b ->
  K = K'.
Proof.
  assert (forall i j, 0 <= i < j ->
            2 ^ 52 * b <= a * 2 ^ i -> a * 2 ^ j < 2 ^ 53 * b -> 0 < a -> False) as H.
  { intros i j Hij L U Ha.
    assert (2 ^ j = 2 ^ (j - i) * 2 ^ i) as P.
    { rewrite <- Z.pow_add_r by lia. f_equal. lia. }
    assert (2 ^ 1 <= 2 ^ (j - i)) as Q by (apply Z.pow_le_mono_r; lia).
    change (2 ^ 1) with 2 in Q.
    assert (0 < 2 ^ i) by (apply Z.pow_pos_nonneg; lia).
    rewrite P in U. nia. }
  intros Ha Hb HK HK' [L U] [L' U'].
  destruct (Z.lt_trichotomy K K') as [C|[C|C]]; trivial; exfalso.
  - apply (H K K'); trivial; lia.
  - apply (H K' K); trivial; lia.
Qed.

(** Two fractions of the same value have the same float. *)
Lemma div_nat_ratio s a b c d :
  0 < a -> 0 < b -> a <= 1024 * b -> b < 2 ^ 64 ->
  0 < c -> 0 < d -> d < 2 ^ 64 ->
  a * d = c * b ->
  Float.div_nat s a b = Float.div_nat s c d.
Proof.
  intros Ha Hb Hab Hb64 Hc Hd Hd64 E.
  assert (c <= 1024 * d) as Hcd by nia.
  destruct (div_nat_rne s a b Ha Hb Hab Hb64) as (K & HK & B & ->).
  destruct (div_nat_rne s c d Hc Hd Hcd Hd64) as (K' & HK' & B' & ->).
  assert (K = K') as <-.
  { apply (binade_unique (a * d) (b * d)); trivial; nia. }
  f_equal.
  rewrite <- (rne_scale d (a * 2 ^ K) b), <- (rne_scale b (c * 2 ^ K) d) by lia.
  f_equal; [|ring].
  replace (d * (a * 2 ^ K)) with (a * d * 2 ^ K) by ring. rewrite E. ring.
Qed.

(** Lists of valid grades with the same exact mean have the same float
    mean. *)
Lemma mean_equal gs1 gs2 :
  gs1 <> [] -> gs2 <> [] -> grades_ok gs1 -> grades_ok gs2 ->
  total gs1 * len gs2 = total gs2 * len gs1 ->
  mean gs1 = mean gs2.
Proof.
  intros N1 N2 [G1 L1] [G2 L2] E.
  pose proof (total_bounds gs1 G1) as [T1 U1].
  pose proof (total_bounds gs2 G2) as [T2 U2].
  pose proof (len_pos gs1 N1) as P1. pose proof (len_pos gs2 N2) as P2.
  rewrite (mean_value gs1 N1 T1), (mean_value gs2 N2 T2). f_equal.
  destruct (Z.eq_dec (total gs1) 0) as [Z|Z].
  - assert (total gs2 = 0) as Z' by nia. rewrite Z, Z', !div_nat_zero. reflexivity.
  - assert (total gs2 <> 0) as Z' by nia.
    apply div_nat_ratio; trivial; lia.
Qed.

End FloatExact.

(** ** Exact means, and how the program ends *)

Section WholeProgram.

Lemma student_eq_dec (s t : student) : {s = t} + {s <> t}.
Proof.
  decide equality; [apply (list_eq_dec Z.eq_dec) | apply string_dec].
Qed.

Lemma mean_below_irrefl gs : ~ mean_below gs gs.
Proof. unfold mean_below. lia. Qed.

(** A student whose exact mean is above that of every other student with
    grades is the one selected, wherever it stands in the roster. *)
Lemma strict_best_is_top studs s :
  In s studs -> grades s <> [] ->
  (forall t, In t studs -> grades t <> [] -> grades_ok (grades t)) ->
  (forall t, In t studs -> grades t <> [] -> t <> s ->
             mean_below (grades t) (grades s)) ->
  exists q,
    mean (grades s) = Some q
    /\ find_top_performer studs = Some [top_line (name s) (Float.round1 q)].
Proof.
  intros I N G B.
  assert (In s (filter has_grades studs)) as F
    by (apply filter_In; split; trivial; apply has_grades_true, N).
  pose proof (find_top_performer_shape studs) as H.
  destruct studs as [|s0 studs]; [destruct I|].
  destruct (filter has_grades (s0 :: studs)) as [|g0 graded] eqn:Fg; [destruct F|].
  rewrite <- Fg in *. clear Fg.
  destruct H as (top & q & S & Q & E).
  destruct (student_eq_dec top s) as [->|D]; [exists q; auto|]. exfalso.
  pose proof (stable_max_in _ _ _ S) as It.
  apply filter_In in It. destruct It as [It Ht]. apply has_grades_true in Ht.
  destruct (mean (grades s)) as [qs|] eqn:Qs; [|apply mean_none in Qs; contradiction].
  assert (SFltb q qs = true) as L.
  { apply (mean_below_ltb (grades top) (grades s)); auto. }
  destruct S as (before & later & k & Eq & K & Hb & Hl).
  rewrite Q in K. injection K as <-.
  rewrite Eq in F. apply in_app_or in F. destruct F as [F|[F|F]].
  - destruct (Hb s F) as (k & Ks & Lk). rewrite Qs in Ks. injection Ks as <-.
    apply ltb_leb, leb_not_ltb in Lk. congruence.
  - congruence.
  - destruct (Hl s F) as (k & Ks & Lk). rewrite Qs in Ks. injection Ks as <-.
    apply leb_not_ltb in Lk. congruence.
Qed.

(** With valid grades, the student selected is the first of those whose
    exact mean is the greatest. *)
Lemma top_first_greatest studs top :
  stable_max (fun s => mean (grades s)) (filter has_grades studs) top ->
  (forall t, In t studs -> grades t <> [] -> grades_ok (grades t)) ->
  first_greatest_mean (filter has_grades studs) top.
Proof.
  intros S G.
  pose proof (stable_max_in _ _ _ S) as It.
  apply filter_In in It. destruct It as [It Ht]. apply has_grades_true in Ht.
  assert (forall t, In t (filter has_grades studs) ->
            In t studs /\ grades t <> []) as F.
  { intros t H. apply filter_In in H. destruct H as [H1 H2].
    split; trivial. apply has_grades_true, H2. }
  destruct S as (before & later & k & Eq & K & Hb & Hl).
  exists before, later. split; trivial. split.
  - intros t Hin.
    destruct (F t) as [I N]; [rewrite Eq; apply in_or_app; left; exact Hin|].
    destruct (Hb t Hin) as (kt & Kt & L).
    unfold mean_below.
    destruct (Z.lt_trichotomy (total (grades t) * len (grades top))
                              (total (grades top) * len (grades t))) as [C|[C|C]];
      trivial; exfalso.
    + pose proof (mean_equal (grades t) (grades top) N Ht (G t I N) (G top It Ht) C) as E.
      rewrite Kt, K in E. injection E as ->. rewrite ltb_irrefl in L. discriminate.
    + assert (SFltb k kt = true) as L'.
      { apply (mean_below_ltb (grades top) (grades t)); auto. }
      apply ltb_leb, leb_not_ltb in L. congruence.
  - intros t Hin B.
    destruct (F t) as [I N]; [rewrite Eq; apply in_or_app; right; right; exact Hin|].
    destruct (Hl t Hin) as (kt & Kt & L).
    assert (SFltb k kt = true) as L'.
    { apply (mean_below_ltb (grades top) (grades t)); auto. }
    apply leb_not_ltb in L. congruence.
Qed.

(** Rounding a float that is already a decimal with one digit changes
    nothing. *)
Lemma round1_div10 n :
  0 <= n <= 1000 -> Float.round1 (Float.div_nat false n 10) = Float.div_nat false n 10.
Proof.
  intros H. destruct (Z.eq_dec n 0) as [->|D]; [reflexivity|].
  pose proof (div_nat_close false n 10 ltac:(lia) ltac:(lia) ltac:(lia) ltac:(lia)) as C.
  pose proof C as (m & k & E & _). rewrite E in C |- *.
  simpl Float.round1. rewrite (tenths_of_close _ _ _ _ C). exact E.
Qed.

(** With valid grades the mean is a finite float: the division never
    reaches the infinity that stands for [OverflowError]. *)
Lemma mean_finite gs :
  gs <> [] -> Forall grade_ok gs -> len gs < 2 ^ 64 ->
  exists x, mean gs = Some x
            /\ (x = S754_zero false \/ exists m e, x = S754_finite false m e).
Proof.
  intros N G L. pose proof (total_bounds gs G) as [T0 T1].
  pose proof (len_pos gs N) as Lp.
  rewrite (mean_value gs N T0). eexists. split; [reflexivity|].
  destruct (Z.eq_dec (total gs) 0) as [Z|Z].
  - left. rewrite Z. apply div_nat_zero.
  - right.
    destruct (div_nat_close false (total gs) (len gs)) as (m & k & E & _); try lia.
    exists m, (- k). exact E.
Qed.

Lemma averages_of_tenths studs :
  (forall s, In s studs -> Forall grade_ok (grades s) /\ len (grades s) < 2 ^ 42) ->
  Forall tenths_float (averages_of studs).
Proof.
  induction studs as [|s studs IH]; intros H; [constructor|].
  unfold averages_of in *. simpl.
  assert (Forall tenths_float
            (flat_map (fun s => match average (grades s) with Some a => [a] | None => [] end) studs))
    as T by (apply IH; intros t It; apply H; right; exact It).
  destruct (average (grades s)) as [a|] eqn:A; simpl; trivial.
  constructor; trivial.
  destruct (H s (or_introl eq_refl)) as [G L].
  assert (grades s <> []) as N by (intros E; apply average_none in E; congruence).
  destruct (average_exact (grades s) N G L) as (n & _ & Bn & A' & R).
  rewrite A in A'. injection A' as ->.
  exists n. repeat split; trivial; [lia | lia | apply round1_div10; lia].
Qed.

(** *** How the program ends *)

Lemma menu_ending select ins studs :
  let r := menu select ins studs in
  ending r = Returned \/ ending r = EOFError.
Proof.
  unfold menu.
  destruct (select =? 1);
    [destruct (add_student_ending ins studs) as [E|[E _]]; auto|].
  destruct (select =? 2);
    [destruct (add_grades_ending ins studs) as [E|[E _]]; auto|].
  destruct (select =? 3); [left; reflexivity|].
  destruct (select =? 4).
  - pose proof (find_top_performer_returns studs) as R.
    destruct (find_top_performer studs); [left; reflexivity | contradiction].
  - destruct (select =? 5); left; reflexivity.
Qed.

(** The program stops in two ways only: by the choice 5, or because the
    input has come to its end. *)
Lemma main_loop_ending fuel : forall ins studs,
  (List.length ins < fuel)%nat ->
  let r := main_loop fuel ins studs in
  ending r = Returned \/ ending r = EOFError.
Proof.
  induction fuel as [|fuel IH]; intros ins studs L; [lia|].
  destruct ins as [|raw ins]; [right; reflexivity|].
  cbv zeta. rewrite main_loop_turn. simpl in L.
  destruct (Text.py_int raw) as [choice|]; [|apply IH; lia].
  destruct (_ || _); [apply IH; lia|].
  cbv zeta.
  pose proof (menu_unread choice ins studs) as U.
  destruct (menu_ending choice ins studs) as [E|E]; rewrite E; [|right; exact E].
  destruct (choice =? 5); [left; exact E|]. apply IH. lia.
Qed.

End WholeProgram.

(** ** Examples *)

Example split_example :
  Text.split "  john   o'neil-SMITH " = ["john"; "o'neil-SMITH"].
Proof. reflexivity. Qed.

Example normalize_example : normalize "  john   o'neil-SMITH " = "John O'Neil-Smith".
Proof. reflexivity. Qed.

Example py_int_examples :
  map Text.py_int ["5"; " 5 "; "+5"; "-0"; "1_0"; "007"]
  = [Some 5; Some 5; Some 5; Some 0; Some 10; Some 7]
  /\ map Text.py_int ["_1"; "1_"; "1__0"; ""; "-"; " "; "+ 5"; "--5"; "5.0"; "1e2"; "abc"]
     = repeat None 11.
Proof. split; reflexivity. Qed.

(** 7/20 and 9/20 are halfway between two decimals; the float of the
    first is below 0.35 and that of the second above 0.45, and [round]
    follows the float.  1/4 is a float: the tie goes to the even digit. *)
Example halfway_examples :
  map (fun gs => option_map Float.repr (average gs))
      [ repeat 1 7 ++ repeat 0 13; repeat 1 9 ++ repeat 0 11; [1; 0; 0; 0]; [] ]
  = [Some "0.3"; Some "0.5"; Some "0.2"; None].
Proof. reflexivity. Qed.

Example report_example :
  show_report (ann_bo ++ [{| name := "Cy"; grades := [] |}])
  = [ Print "-----Student Report-----";
      Print "Ann's average grade is 95.0.";
      Print "Bo's average grade is 95.0.";
      Print "Cy's average grade is N/A.";
      Print "-------------------------";
      Print "Max average: 95.0";
      Print "Min average: 95.0";
      Print "Overall average: 95.0" ].
Proof. reflexivity. Qed.

Example session_example :
  students (main session) = ann_bo
  /\ ending (main session) = Returned
  /\ unread (main session) = ["never read"]
  /\ printed (main session)
     = [ "The name Ann already exists.";
         "Invalid input. Please enter a number (or 'done'): ";
         "-----Student Report-----";
         "Ann's average grade is 95.0.";
         "Bo's average grade is 95.0.";
         "-------------------------";
         "Max average: 95.0";
         "Min average: 95.0";
         "Overall average: 95.0";
         "The student with the highest average is Ann with a grade of 95.0";
         "Enter number from 1 to 5: ";
         "Enter number from 1 to 5: ";
         "Exiting program" ].
Proof. repeat split; reflexivity. Qed.

(** ** The properties of the specification *)

(** C1. When at least one student has a grade, [find_top_performer] prints
    the student that is the stable maximum of the students with grades for
    the mean of the grades: the means of the students before it are
    strictly smaller, those of the students after it are smaller or equal,
    so of several students with the greatest mean the first added is
    selected.  The means compared are floats; with valid grades, fewer than
    2^23 for each student, they are ordered as the exact means, and the
    student selected is the first of those whose exact mean is the
    greatest.  For Ann with 90 and 100 and Bo with 95 and 95, whose means
    are equal, Ann is printed. *)
Theorem top_performer_is_first_greatest_average :
  (forall studs,
      (exists s, In s studs /\ grades s <> []) ->
      exists top q,
        stable_max (fun s => mean (grades s)) (filter has_grades studs) top
        /\ mean (grades top) = Some q
        /\ find_top_performer studs = Some [top_line (name top) (Float.round1 q)]
        /\ ((forall t, In t studs -> grades t <> [] -> grades_ok (grades t)) ->
            first_greatest_mean (filter has_grades studs) top))
  /\ mean [90; 100] = mean [95; 95]
  /\ find_top_performer ann_bo
     = Some [Print "The student with the highest average is Ann with a grade of 95.0"].
Proof.
  split; [|split; reflexivity].
  intros studs (s & I & N).
  assert (In s (filter has_grades studs)) as F
    by (apply filter_In; split; trivial; apply has_grades_true, N).
  pose proof (find_top_performer_shape studs) as H.
  destruct studs as [|s0 studs]; [destruct I|].
  destruct (filter has_grades (s0 :: studs)) as [|g0 graded] eqn:Fg; [destruct F|].
  rewrite <- Fg in *. destruct H as (top & q & S & Q & E).
  exists top, q. repeat split; trivial.
  intros G. apply (top_first_greatest _ _ S G).
Qed.

(** Ann and Bo have valid grades: Ann, the first of the two equal means, is
    the stable maximum and the first greatest exact mean. *)
Lemma top_performer_is_first_greatest_average_witness :
  exists top q,
    stable_max (fun s => mean (grades s)) (filter has_grades ann_bo) top
    /\ mean (grades top) = Some q
    /\ find_top_performer ann_bo = Some [top_line (name top) (Float.round1 q)]
    /\ ((forall t, In t ann_bo -> grades t <> [] -> grades_ok (grades t)) ->
        first_greatest_mean (filter has_grades ann_bo) top).
Proof.
  apply (proj1 top_performer_is_first_greatest_average ann_bo).
  exists ann. split; [left; reflexivity | discriminate].
Defined.


(** C2. For a record of valid grades, fewer than 2^42 of them, the average
    of the report is the float nearest to [n / 10], where [n / 10] is a
    decimal with one digit nearest to the exact mean of the grades, and its
    line shows that decimal.  A record without grades has no average: its
    line says N/A, nothing is raised, and the report has the line of every
    student of the roster, in order. *)
Theorem per_student_average_is_rounded_mean :
  (forall s,
      grades s <> [] -> Forall grade_ok (grades s) -> len (grades s) < 2 ^ 42 ->
      exists n,
        nearest_tenth (grades s) n
        /\ average (grades s) = Some (Float.div_nat false n 10)
        /\ student_line s
           = Print (name s +++ "'s average grade is " +++ one_decimal n +++ "."))
  /\ (forall gs, average gs = None <-> gs = [])
  /\ (forall s, grades s = [] ->
                student_line s = Print (name s +++ "'s average grade is N/A."))
  /\ (forall studs, studs <> [] ->
        show_report studs
        = report_title :: map student_line studs ++ summary (averages_of studs)).
Proof.
  split; [|split; [|split]].
  - intros s N G L.
    destruct (average_exact (grades s) N G L) as (n & Hn & _ & A & R).
    exists n. repeat split; trivial.
    unfold student_line. rewrite A. unfold average_line. rewrite R. reflexivity.
  - apply average_none.
  - intros s E. unfold student_line.
    apply average_none in E. rewrite E. reflexivity.
  - apply show_report_shape.
Qed.

(** Ann has the grades 90 and 100. *)
Lemma per_student_average_is_rounded_mean_witness :
  exists n,
    nearest_tenth (grades ann) n
    /\ average (grades ann) = Some (Float.div_nat false n 10)
    /\ student_line ann
       = Print (name ann +++ "'s average grade is " +++ one_decimal n +++ ".").
Proof.
  apply (proj1 per_student_average_is_rounded_mean ann).
  - discriminate.
  - repeat constructor; unfold grade_ok; simpl; lia.
  - reflexivity.
Defined.









(** C6. [valid_input] gives one of three answers.  It is [Done] exactly
    for a text that is "done" once lowered; else it is [Grade v] exactly
    when [int] reads the integer [v] from the text and [v] is between 0 and
    100; else it is [Invalid].  "101", "-1" and "abc" are invalid, "100"
    and "0" are grades, "done", "DONE" and "Done" end the entry. *)
Theorem grade_validator_classifies :
  (forall s, valid_input s = Done <-> Text.lower s = "done")
  /\ (forall s v, valid_input s = Grade v
                  <-> Text.lower s <> "done" /\ Text.py_int s = Some v /\ 0 <= v <= 100)
  /\ (forall s, valid_input s = Invalid
                <-> Text.lower s <> "done"
                    /\ forall v, Text.py_int s = Some v -> ~ 0 <= v <= 100)
  /\ map valid_input ["101"; "-1"; "abc"] = [Invalid; Invalid; Invalid]
  /\ map valid_input ["100"; "0"] = [Grade 100; Grade 0]
  /\ map valid_input ["done"; "DONE"; "Done"] = [Done; Done; Done].
Proof.
  split; [exact valid_input_done|]. split; [exact valid_input_grade|].
  split; [exact valid_input_invalid|]. repeat split; reflexivity.
Qed.

(** C7. Every grade of every record is between 0 and 100 in the roster of
    the program, whatever lines it has read from its start with the empty
    roster; each operation keeps it so: the two that write, and the two
    reports, which leave the roster as it is. *)
Theorem grades_stay_between_0_and_100 :
  (forall ins, roster_ok (students (main ins)))
  /\ (forall fuel ins, roster_ok (students (main_loop fuel ins [])))
  /\ (forall ins studs, roster_ok studs -> roster_ok (students (add_student ins studs)))
  /\ (forall ins studs, roster_ok studs -> roster_ok (students (add_grades ins studs)))
  /\ (forall select ins studs, roster_ok studs -> roster_ok (students (menu select ins studs)))
  /\ (forall ins studs, students (menu 3 ins studs) = studs
                        /\ students (menu 4 ins studs) = studs).
Proof.
  split; [intros ins; apply main_loop_ok; constructor|].
  split; [intros fuel ins; apply main_loop_ok; constructor|].
  split; [exact add_student_ok|]. split; [exact add_grades_ok|].
  split; [exact menu_ok|].
  intros ins studs. split; [reflexivity|].
  unfold menu; simpl. destruct (find_top_performer studs); reflexivity.
Qed.

(** Grades typed for Ann, of which 177 is refused. *)
Lemma grades_stay_between_0_and_100_witness :
  roster_ok (students (add_grades ["ann"; "77"; "177"; "done"] ann_bo)).
Proof.
  apply (proj1 (proj2 (proj2 (proj2 grades_stay_between_0_and_100)))).
  repeat constructor; unfold grade_ok; simpl; lia.
Defined.


(** C8. At the choice prompt a line that is not an integer, or an integer
    outside 1..5, gets the range message and the loop goes on from the same
    roster with the next line, as many times as such lines come; the loop
    then still waits for a choice.  The choice 5 prints the exit message and
    ends the loop: nothing more is read or asked.  After the choices 1 to 4
    the loop goes on once the operation has returned; and the loop returns
    only when the last line it read is the choice 5.  The program ends in
    no other way than this return or the end of its input. *)
Theorem menu_loop_choices :
  (forall raw rest studs,
      invalid_choice raw ->
      run_from studs (raw :: rest)
      = after (banner ++ [choice_prompt; Print "Enter number from 1 to 5: "])
              (run_from studs rest))
  /\ (forall bad rest studs,
      Forall invalid_choice bad ->
      run_from studs (bad ++ rest)
      = after (flat_map (fun _ => banner ++ [choice_prompt; range_error]) bad)
              (run_from studs rest))
  /\ (forall bad studs,
      Forall invalid_choice bad ->
      students (run_from studs bad) = studs /\ ending (run_from studs bad) = EOFError)
  /\ (forall raw rest studs,
      Text.py_int raw = Some 5 ->
      run_from studs (raw :: rest)
      = returned rest studs (banner ++ [choice_prompt; Print "Exiting program"]))
  /\ (forall raw choice rest studs,
      Text.py_int raw = Some choice -> 1 <= choice <= 4 ->
      let r := menu choice rest studs in
      run_from studs (raw :: rest)
      = match ending r with
        | Returned => after (banner ++ [choice_prompt] ++ events r)
                            (run_from (students r) (unread r))
        | _ => after (banner ++ [choice_prompt]) r
        end)
  /\ (forall ins studs,
      ending (run_from studs ins) = Returned ->
      exists before raw,
        ins = before ++ raw :: unread (run_from studs ins)
        /\ Text.py_int raw = Some 5)
  /\ (forall ins studs,
      ending (run_from studs ins) = Returned \/ ending (run_from studs ins) = EOFError)
  /\ invalid_choice "6" /\ invalid_choice "0" /\ invalid_choice "abc"
  /\ Text.py_int "5" = Some 5.
Proof.
  split; [exact run_from_invalid|]. split; [exact run_from_invalid_many|]. split.
  { intros bad studs H.
    pose proof (run_from_invalid_many bad [] studs H) as E.
    rewrite app_nil_r in E. rewrite E. split; reflexivity. }
  split; [exact run_from_exit|]. split; [exact run_from_operation|]. split.
  { intros ins studs. apply main_loop_returned. }
  split.
  { intros ins studs. apply main_loop_ending. lia. }
  split; [vm_compute; right; reflexivity|].
  split; [vm_compute; left; reflexivity|].
  split; [exact I | reflexivity].
Qed.

(** Three refused choices in a row, before the roster of Ann and Bo is
    left with the choice 5. *)
Lemma menu_loop_choices_witness :
  run_from ann_bo (["6"; "0"; "abc"] ++ ["5"])
  = after (flat_map (fun _ => banner ++ [choice_prompt; range_error]) ["6"; "0"; "abc"])
          (run_from ann_bo ["5"]).
Proof.
  apply (proj1 (proj2 menu_loop_choices)).
  apply Forall_cons; [vm_compute; right; reflexivity|].
  apply Forall_cons; [vm_compute; left; reflexivity|].
  apply Forall_cons; [exact I | apply Forall_nil].
Defined.


(** C9. Two students with valid grades, fewer than 2^23 each: the one whose
    exact mean is the greater is selected whichever was added first, also
    when the two averages are the same once rounded to one decimal.  The
    rounding is applied to the average printed only. *)
Theorem top_performer_compares_unrounded_means (s1 s2 : student) :
  grades s1 <> [] -> grades s2 <> [] ->
  grades_ok (grades s1) -> grades_ok (grades s2) ->
  mean_below (grades s2) (grades s1) ->
  exists q,
    mean (grades s1) = Some q
    /\ find_top_performer [s1; s2] = Some [top_line (name s1) (Float.round1 q)]
    /\ find_top_performer [s2; s1] = Some [top_line (name s1) (Float.round1 q)].
Proof.
  intros N1 N2 G1 G2 B.
  assert (forall studs, (forall t, In t studs -> t = s1 \/ t = s2) -> In s1 studs ->
          exists q, mean (grades s1) = Some q
                    /\ find_top_performer studs = Some [top_line (name s1) (Float.round1 q)]) as H.
  { intros studs Hs I. apply strict_best_is_top; trivial.
    - intros t It _. destruct (Hs t It) as [->| ->]; trivial.
    - intros t It _ D. destruct (Hs t It) as [->| ->]; [contradiction | exact B]. }
  destruct (H [s1; s2]) as (q & Q & E1); [| left; reflexivity |].
  { intros t [<-|[<-|[]]]; auto. }
  destruct (H [s2; s1]) as (q' & Q' & E2); [| right; left; reflexivity |].
  { intros t [<-|[<-|[]]]; auto. }
  rewrite Q in Q'. injection Q' as <-.
  exists q. auto.
Qed.

(** Ada has 90, 90, 91 (mean 90.33...) and Bob 90 five times and 91 twice
    (mean 90.28...): both averages round to 90.3, and Ada is selected in
    both orders. *)
Lemma top_performer_compares_unrounded_means_witness :
  average (grades ada) = average (grades bob)
  /\ exists q,
      mean (grades ada) = Some q
      /\ find_top_performer [ada; bob] = Some [top_line (name ada) (Float.round1 q)]
      /\ find_top_performer [bob; ada] = Some [top_line (name ada) (Float.round1 q)].
Proof.
  split; [reflexivity|].
  apply (top_performer_compares_unrounded_means ada bob).
  - discriminate.
  - discriminate.
  - split; [repeat constructor; unfold grade_ok; simpl; lia | reflexivity].
  - split; [repeat constructor; unfold grade_ok; simpl; lia | reflexivity].
  - reflexivity.
Defined.

(** C10. On the empty roster [find_top_performer] prints "No students
    available."; on a roster with students of which none has a grade it
    prints "No grades available"; with a graded student it prints one line
    that names a student.  The three texts are different from each
    other. *)
Theorem top_performer_unavailable_messages :
  find_top_performer [] = Some [Print "No students available."]
  /\ (forall studs,
      studs <> [] -> (forall s, In s studs -> grades s = []) ->
      find_top_performer studs = Some [Print "No grades available"])
  /\ (forall studs,
      (exists s, In s studs /\ grades s <> []) ->
      exists n average_grade,
        find_top_performer studs
        = Some [Print ("The student with the highest average is " +++ n
                       +++ " with a grade of " +++ Float.repr average_grade)])
  /\ Print "No students available." <> Print "No grades available"
  /\ (forall n average_grade,
      top_line n average_grade <> Print "No students available."
      /\ top_line n average_grade <> Print "No grades available").
Proof.
  split; [reflexivity|]. split; [|split; [|split]].
  - intros studs N E.
    assert (filter has_grades studs = []) as F.
    { clear N. induction studs as [|s studs IH]; simpl; trivial.
      rewrite (proj2 (has_grades_false s) (E s (or_introl eq_refl))).
      apply IH. intros t It. apply E. right. exact It. }
    pose proof (find_top_performer_shape studs) as H.
    destruct studs; [contradiction|]. rewrite F in H. exact H.
  - intros studs (s & I & N).
    assert (In s (filter has_grades studs)) as F
      by (apply filter_In; split; trivial; apply has_grades_true, N).
    pose proof (find_top_performer_shape studs) as H.
    destruct studs as [|s0 studs]; [destruct I|].
    destruct (filter has_grades (s0 :: studs)) as [|g0 graded]; [destruct F|].
    destruct H as (top & q & _ & _ & E).
    exists (name top), (Float.round1 q). exact E.
  - discriminate.
  - intros n a. split; discriminate.
Qed.

(** A roster with one student, who has no grade. *)
Lemma top_performer_unavailable_messages_witness :
  find_top_performer [cy] = Some [Print "No grades available"].
Proof.
  apply (proj1 (proj2 top_performer_unavailable_messages)).
  - discriminate.
  - intros s [<-|[]]. reflexivity.
Defined.


(** ** Further properties of the program *)

(** *** [int] reads back what [str] writes *)

Lemma int_digits_uint d : forall acc,
  Text.int_digits false acc (NilEmpty.string_of_uint d) = Some (uint_acc d acc, "").
Proof.
  induction d; intros acc; simpl; trivial; rewrite IHd; do 2 f_equal.
  f_equal. apply Z.add_0_r.
Qed.

Lemma uint_acc_pos d : forall acc,
  uint_acc d (Zpos acc) = Zpos (Pos.of_uint_acc d acc).
Proof.
  induction d; intros acc; cbn [uint_acc Pos.of_uint_acc]; trivial;
    rewrite <- IHd; f_equal; lia.
Qed.

Lemma uint_acc_of_uint d : uint_acc d 0 = Z.of_N (Pos.of_uint d).
Proof.
  induction d; simpl; trivial;
    try (rewrite <- uint_acc_pos; reflexivity).
Qed.

Lemma int_magnitude_uint d :
  d <> Decimal.Nil ->
  Text.int_magnitude (NilZero.string_of_uint d) = Some (uint_acc d 0).
Proof.
  destruct d; intros N; try contradiction; simpl;
    rewrite int_digits_uint; reflexivity.
Qed.

Lemma int_magnitude_pos p :
  Text.int_magnitude (NilZero.string_of_uint (Pos.to_uint p)) = Some (Zpos p).
Proof.
  rewrite int_magnitude_uint by apply Unsigned.to_uint_nonnil.
  rewrite uint_acc_of_uint, Unsigned.of_to. reflexivity.
Qed.

Lemma py_int_digits d :
  d <> Decimal.Nil ->
  Text.py_int (NilZero.string_of_uint d) = Text.int_magnitude (NilZero.string_of_uint d).
Proof.
  destruct d; intros N; try contradiction; reflexivity.
Qed.

Lemma py_int_decimal v : Text.py_int (Text.decimal v) = Some v.
Proof.
  destruct v as [|p|p]; [reflexivity| |].
  - unfold Text.decimal. simpl Z.to_N. simpl N.to_uint.
    rewrite py_int_digits by apply Unsigned.to_uint_nonnil.
    apply int_magnitude_pos.
  - unfold Text.decimal.
    change (Text.py_int ("-" +++ NilZero.string_of_uint (Pos.to_uint p)))
      with (option_map Z.opp (Text.int_magnitude (NilZero.string_of_uint (Pos.to_uint p)))).
    rewrite int_magnitude_pos. reflexivity.
Qed.

Lemma lower_done_not_int s : Text.lower s = "done" -> Text.py_int s = None.
Proof.
  destruct s as [|c s]; [discriminate|]. simpl. intros [= H _].
  destruct c as [[] [] [] [] [] [] [] []]; vm_compute in H; try discriminate; reflexivity.
Qed.

Lemma valid_input_decimal (v : Z) :
  valid_input (Text.decimal v)
  = if (0 <=? v) && (v <=? 100) then Grade v else Invalid.
Proof.
  unfold valid_input. rewrite py_int_decimal.
  destruct (String.eqb_spec (Text.lower (Text.decimal v)) "done") as [E|E]; trivial.
  apply lower_done_not_int in E. rewrite py_int_decimal in E. discriminate.
Qed.


(** *** [split] and [join], and the names kept *)




Lemma to_lower_to_upper c : Text.to_lower (Text.to_upper c) = Text.to_lower c.
Proof. destruct c as [[] [] [] [] [] [] [] []]; reflexivity. Qed.















(** *** Which lines are names *)














(** *** Looking a student up *)

Lemma find_student_first (n : string) (studs : roster) :
  forall i,
    find_student n studs = Some i
    <-> exists before s rest,
          studs = before ++ s :: rest /\ List.length before = i
          /\ name s = n /\ ~ In n (map name before).
Proof.
  induction studs as [|s studs IH]; intros i; simpl.
  - split; [discriminate|]. intros (before & t & rest & E & _).
    destruct before; discriminate.
  - destruct (String.eqb_spec (name s) n) as [E|E].
    + split.
      * intros [= <-]. exists [], s, studs. simpl. tauto.
      * intros ([|b before] & t & rest & S & L & N & F).
        { subst i. reflexivity. }
        { injection S as <- _. exfalso. apply F. left. exact E. }
    + split.
      * destruct (find_student n studs) as [j|]; simpl; [|discriminate].
        intros [= <-]. destruct (proj1 (IH j) eq_refl) as (before & t & rest & S & L & N & F).
        exists (s :: before), t, rest. subst studs. simpl. repeat split; auto.
        intros [C|C]; [congruence | contradiction].
      * intros ([|b before] & t & rest & S & L & N & F).
        { injection S as <- _. contradiction. }
        { injection S as <- S. simpl in L, F. subst i.
          assert (find_student n studs = Some (List.length before)) as ->.
          { apply IH. exists before, t, rest. repeat split; auto. }
          reflexivity. }
Qed.

(** X4. [find_student] gives the position of the first record with the
    name, and nothing exactly when no record has it. *)
Theorem find_student_first_match (n : string) (studs : roster) :
  (forall i,
      find_student n studs = Some i
      <-> exists before s rest,
            studs = before ++ s :: rest /\ List.length before = i
            /\ name s = n /\ ~ In n (map name before))
  /\ (find_student n studs = None <-> ~ In n (map name studs)).
Proof. split; [apply find_student_first | apply find_student_none]. Qed.

Lemma find_student_app n a b :
  find_student n (a ++ b)
  = match find_student n a with
    | Some i => Some i
    | None => option_map (Nat.add (List.length a)) (find_student n b)
    end.
Proof.
  induction a as [|s a IH]; simpl.
  - destruct (find_student n b); reflexivity.
  - destruct (String.eqb (name s) n); trivial.
    rewrite IH. destruct (find_student n a); simpl; trivial.
    destruct (find_student n b); reflexivity.
Qed.

(** X5. Once [add_student] has stored a name, [find_student] finds it at the
    end of the roster, with no grades, and finds every other name where it
    was or not at all, as before. *)
Theorem find_student_after_adding (n : string) (studs : roster) :
  ~ In n (map name studs) ->
  let added := studs ++ [new_student n] in
  find_student n added = Some (List.length studs)
  /\ nth_error added (List.length studs) = Some {| name := n; grades := [] |}
  /\ forall m, m <> n -> find_student m added = find_student m studs.
Proof.
  intros F added. unfold added. split; [|split].
  - rewrite find_student_app. apply find_student_none in F. rewrite F.
    simpl. rewrite String.eqb_refl. simpl. f_equal. lia.
  - rewrite nth_error_app2, Nat.sub_diag by lia. reflexivity.
  - intros m D. rewrite find_student_app.
    destruct (find_student m studs); trivial. simpl.
    destruct (String.eqb_spec n m); [congruence | reflexivity].
Qed.

Lemma find_student_after_adding_witness :
  let added := [ada; bob] ++ [new_student "Cy"] in
  find_student "Cy" added = Some 2%nat
  /\ nth_error added 2 = Some {| name := "Cy"; grades := [] |}
  /\ forall m, m <> "Cy" -> find_student m added = find_student m [ada; bob].
Proof.
  apply (find_student_after_adding "Cy" [ada; bob]).
  vm_compute. intros [H|[H|[]]]; discriminate.
Defined.

(** *** What add_grades stores *)

Lemma append_grade_at before s rest g :
  append_grade (List.length before) g (before ++ s :: rest)
  = before ++ {| name := name s; grades := grades s ++ [g] |} :: rest.
Proof. induction before as [|b before IH]; simpl; [|rewrite IH]; reflexivity. Qed.

Lemma enter_grades_at before rest ins : forall s,
  let r := enter_grades (List.length before) ins (before ++ s :: rest) in
  students r
  = before ++ {| name := name s; grades := grades s ++ typed_grades ins |} :: rest
  /\ unread r = match after_done ins with Some unread_lines => unread_lines | None => [] end
  /\ ending r = match after_done ins with Some _ => Returned | None => EOFError end.
Proof.
  induction ins as [|line ins IH]; intros s; cbn [enter_grades typed_grades after_done].
  - simpl. rewrite app_nil_r. destruct s; auto.
  - destruct (valid_input line) as [|g|].
    + simpl. rewrite app_nil_r. destruct s; auto.
    + rewrite append_grade_at.
      destruct (IH {| name := name s; grades := grades s ++ [g] |}) as (S & U & E).
      cbn [after students unread ending name grades] in *.
      rewrite S, U, E, <- app_assoc. auto.
    + apply IH.
Qed.

Lemma add_grades_at
  (raw n : string) (lines : list string) (before : roster) (s : student) (rest : roster) :
  fst (check_input raw) = Some n ->
  name s = n -> ~ In n (map name before) ->
  let r := add_grades (raw :: lines) (before ++ s :: rest) in
  students r
  = before ++ {| name := n; grades := grades s ++ typed_grades lines |} :: rest
  /\ unread r = match after_done lines with Some unread_lines => unread_lines | None => [] end
  /\ ending r = match after_done lines with Some _ => Returned | None => EOFError end.
Proof.
  intros C N F r.
  assert (find_student n (before ++ s :: rest) = Some (List.length before)) as P.
  { apply find_student_first. exists before, s, rest. auto. }
  unfold r. cbn [add_grades]. rewrite (check_input_some _ _ C), P.
  cbn [after students unread ending]. subst n. apply enter_grades_at.
Qed.

(** X6. When the name typed belongs to a student, [add_grades] appends to the
    grades of the first record with that name the grades typed up to the
    first "done", in the order typed, and changes nothing else; it returns
    with the lines after that "done" unread, or ends in [EOFError], the
    grades typed so far stored, when no line reads "done". *)
Theorem add_grades_stores_typed_grades
  (raw n : string) (lines : list string) (before : roster) (s : student) (rest : roster) :
  fst (check_input raw) = Some n ->
  name s = n -> ~ In n (map name before) ->
  let r := add_grades (raw :: lines) (before ++ s :: rest) in
  students r
  = before ++ {| name := n; grades := grades s ++ typed_grades lines |} :: rest
  /\ unread r = match after_done lines with Some unread_lines => unread_lines | None => [] end
  /\ ending r = match after_done lines with Some _ => Returned | None => EOFError end.
Proof. apply add_grades_at. Qed.

Lemma add_grades_stores_typed_grades_witness :
  let r := add_grades ["  ADA "; "77"; "x"; "101"; "8"; "Done"; "3"] ([cy] ++ ada :: [bob]) in
  students r
  = [cy] ++ {| name := "Ada"; grades := [90; 90; 91; 77; 8] |} :: [bob]
  /\ unread r = ["3"]
  /\ ending r = Returned.
Proof.
  apply (add_grades_stores_typed_grades "  ADA " "Ada"
           ["77"; "x"; "101"; "8"; "Done"; "3"] [cy] ada [bob]).
  - reflexivity.
  - reflexivity.
  - vm_compute. intros [H|[]]; discriminate.
Defined.

(** X7. A name that no student has ends [add_grades] at once: it says that
    the student is not found and returns, asking for no other name and
    reading no other line, the roster as it was; a line that is no name
    makes it ask again.  From the menu, the choice 2 followed by such a name
    leads back to the menu. *)
Theorem add_grades_unknown_name (raw n : string) (lines : list string) (studs : roster) :
  fst (check_input raw) = Some n -> ~ In n (map name studs) ->
  add_grades (raw :: lines) studs
  = returned lines studs
      [name_prompt; Print ("The student '" +++ n +++ "' is not found.")]
  /\ (forall bad, fst (check_input bad) = None ->
        add_grades (bad :: raw :: lines) studs
        = after [name_prompt; invalid_name] (add_grades (raw :: lines) studs))
  /\ (forall choice, Text.py_int choice = Some 2 ->
        run_from studs (choice :: raw :: lines)
        = after (banner ++ [choice_prompt; name_prompt; not_found n])
                (run_from studs lines)).
Proof.
  intros C F.
  assert (add_grades (raw :: lines) studs
          = returned lines studs [name_prompt; not_found n]) as E.
  { cbn [add_grades]. rewrite (check_input_some _ _ C).
    apply find_student_none in F. rewrite F. reflexivity. }
  split; [exact E|]. split.
  - intros bad B.
    change (add_grades (bad :: raw :: lines) studs)
      with (match check_input bad with
            | (None, evs) => after evs (add_grades (raw :: lines) studs)
            | (Some n, evs) =>
                match find_student n studs with
                | None => returned (raw :: lines) studs (evs ++ [not_found n])
                | Some i => after evs (enter_grades i (raw :: lines) studs)
                end
            end).
    rewrite (check_input_none _ B). reflexivity.
  - intros choice P.
    pose proof (run_from_operation choice 2 (raw :: lines) studs P) as R.
    cbv zeta in R. change (menu 2 (raw :: lines) studs) with (add_grades (raw :: lines) studs) in R.
    rewrite E in R. cbn [ending returned events students unread] in R.
    rewrite R by lia. reflexivity.
Qed.

Lemma add_grades_unknown_name_witness :
  add_grades [" zed "; "3"] [ada; bob]
  = returned ["3"] [ada; bob] [name_prompt; Print "The student 'Zed' is not found."]
  /\ (forall bad, fst (check_input bad) = None ->
        add_grades [bad; " zed "; "3"] [ada; bob]
        = after [name_prompt; invalid_name] (add_grades [" zed "; "3"] [ada; bob]))
  /\ (forall choice, Text.py_int choice = Some 2 ->
        run_from [ada; bob] [choice; " zed "; "3"]
        = after (banner ++ [choice_prompt; name_prompt; not_found "Zed"])
                (run_from [ada; bob] ["3"])).
Proof.
  apply (add_grades_unknown_name " zed " "Zed" ["3"] [ada; bob]).
  - reflexivity.
  - vm_compute. intros [H|[H|[]]]; discriminate.
Defined.

(** *** The names in the roster *)

Lemma append_grade_names i g studs :
  map name (append_grade i g studs) = map name studs.
Proof.
  revert i. induction studs as [|s studs IH]; intros [|i]; simpl; trivial.
  rewrite IH. reflexivity.
Qed.

Lemma enter_grades_names i ins : forall studs,
  map name (students (enter_grades i ins studs)) = map name studs.
Proof.
  induction ins as [|line ins IH]; intros studs; simpl; trivial.
  destruct (valid_input line); simpl; trivial.
  rewrite IH. apply append_grade_names.
Qed.

Lemma add_grades_names ins studs :
  map name (students (add_grades ins studs)) = map name studs.
Proof.
  induction ins as [|raw ins IH]; simpl; trivial.
  destruct (check_input raw) as [[n|] evs]; simpl; trivial.
  destruct (find_student n studs); simpl; trivial.
  apply enter_grades_names.
Qed.

(** The record that [add_student] adds has a name that one of the lines
    gave and that no student had. *)
Lemma add_student_added ins studs :
  students (add_student ins studs) = studs
  \/ exists raw n, In raw ins /\ fst (check_input raw) = Some n
                   /\ ~ In n (map name studs)
                   /\ students (add_student ins studs) = studs ++ [new_student n].
Proof.
  induction ins as [|raw ins IH]; simpl; [left; reflexivity|].
  destruct (check_input raw) as [[n|] evs] eqn:C; simpl.
  - destruct (find_student n studs) eqn:F; simpl.
    + destruct IH as [IH|(r & m & I & IH)]; [left; exact IH|].
      right. exists r, m. tauto.
    + right. exists raw, n. rewrite C. apply find_student_none in F. auto.
  - destruct IH as [IH|(r & m & I & IH)]; [left; exact IH|].
    right. exists r, m. tauto.
Qed.

Section NamesInvariant.

Variable P : list string -> Prop.
Hypothesis P_add : forall names raw n,
  P names -> fst (check_input raw) = Some n -> ~ In n names -> P (names ++ [n]).

Lemma add_student_names_inv ins studs :
  P (map name studs) -> P (map name (students (add_student ins studs))).
Proof.
  intros H. destruct (add_student_added ins studs) as [E|(raw & n & _ & C & F & E)];
    rewrite E; trivial.
  rewrite map_app. simpl. eapply P_add; eauto.
Qed.

Lemma menu_names_inv select ins studs :
  P (map name studs) -> P (map name (students (menu select ins studs))).
Proof.
  intros H. unfold menu.
  destruct (select =? 1); [apply add_student_names_inv, H|].
  destruct (select =? 2); [rewrite add_grades_names; exact H|].
  destruct (select =? 3); [exact H|].
  destruct (select =? 4); [destruct (find_top_performer studs); exact H|].
  destruct (select =? 5); exact H.
Qed.

Lemma main_loop_names_inv fuel : forall ins studs,
  P (map name studs) -> P (map name (students (main_loop fuel ins studs))).
Proof.
  induction fuel as [|fuel IH]; intros ins studs H; [exact H|].
  destruct ins as [|raw ins]; [exact H|].
  rewrite main_loop_turn.
  destruct (Text.py_int raw) as [choice|]; [|apply IH, H].
  destruct (_ || _); [apply IH, H|].
  cbv zeta. pose proof (menu_names_inv choice ins studs H) as M.
  destruct (ending (menu choice ins studs)); trivial.
  destruct (choice =? 5); trivial. apply IH, M.
Qed.

End NamesInvariant.

Lemma NoDup_snoc (names : list string) n : NoDup names -> ~ In n names -> NoDup (names ++ [n]).
Proof.
  intros D F. induction D as [|x l X D IH]; simpl.
  - constructor; [tauto | constructor].
  - constructor.
    + rewrite in_app_iff. simpl. intros [I|[I|[]]]; [contradiction|].
      apply F. left. symmetry. exact I.
    + apply IH. intros I. apply F. right. exact I.
Qed.

Lemma snoc_distinct names (raw n : string) :
  NoDup names -> fst (check_input raw) = Some n -> ~ In n names -> NoDup (names ++ [n]).
Proof. intros D _ F. apply NoDup_snoc; trivial. Qed.


(** X8. No two students of the roster have the same name: the program starts
    without students, and no choice of the menu, whatever is typed, gives
    a roster with a name twice from one without. *)
Theorem names_stay_distinct :
  (forall ins, NoDup (map name (students (main ins))))
  /\ (forall studs ins,
        NoDup (map name studs) -> NoDup (map name (students (run_from studs ins))))
  /\ (forall select ins studs,
        NoDup (map name studs) -> NoDup (map name (students (menu select ins studs)))).
Proof.
  pose proof snoc_distinct as A.
  split; [|split].
  - intros ins. apply (main_loop_names_inv _ A). constructor.
  - intros studs ins. apply (main_loop_names_inv _ A).
  - intros select ins studs. apply (menu_names_inv _ A).
Qed.

Lemma names_stay_distinct_witness :
  NoDup (map name (students (run_from [ada; bob] ["1"; "ada"; "Bob"; "cy"; "5"]))).
Proof.
  apply (proj1 (proj2 names_stay_distinct)).
  vm_compute. constructor; [intros [H|[]]; discriminate|].
  constructor; [intros []|constructor].
Defined.






(** *** What the program never takes back *)

Lemma grows_refl studs : grows studs studs.
Proof.
  intros i s H. exists s, []. rewrite app_nil_r. auto.
Qed.

Lemma grows_trans a b c : grows a b -> grows b c -> grows a c.
Proof.
  intros G1 G2 i s H.
  destruct (G1 i s H) as (t & m1 & T & N1 & E1).
  destruct (G2 i t T) as (u & m2 & U & N2 & E2).
  exists u, (m1 ++ m2). rewrite app_assoc, <- E1. repeat split; congruence.
Qed.

Lemma grows_snoc studs more : grows studs (studs ++ more).
Proof.
  intros i s H. exists s, []. rewrite app_nil_r.
  rewrite nth_error_app1; [auto|]. apply nth_error_Some. congruence.
Qed.

Lemma append_grade_grows g studs : forall i, grows studs (append_grade i g studs).
Proof.
  induction studs as [|s studs IH]; intros i j t H.
  - destruct j; discriminate.
  - destruct i as [|i]; simpl.
    + destruct j as [|j]; simpl in *.
      * injection H as <-. exists {| name := name s; grades := grades s ++ [g] |}, [g]. auto.
      * exists t, []. rewrite app_nil_r. auto.
    + destruct j as [|j]; simpl in *.
      * exists t, []. rewrite app_nil_r. auto.
      * apply IH, H.
Qed.

Lemma enter_grades_grows i ins : forall studs,
  grows studs (students (enter_grades i ins studs)).
Proof.
  induction ins as [|line ins IH]; intros studs; simpl; [apply grows_refl|].
  destruct (valid_input line); simpl; [apply grows_refl | | apply IH].
  eapply grows_trans; [apply append_grade_grows | apply IH].
Qed.

Lemma add_grades_grows ins studs : grows studs (students (add_grades ins studs)).
Proof.
  induction ins as [|raw ins IH]; simpl; [apply grows_refl|].
  destruct (check_input raw) as [[n|] evs]; simpl; trivial.
  destruct (find_student n studs); simpl; [apply enter_grades_grows | apply grows_refl].
Qed.

Lemma add_student_grows ins studs : grows studs (students (add_student ins studs)).
Proof.
  destruct (add_student_added ins studs) as [E|(raw & n & _ & _ & _ & E)]; rewrite E.
  - apply grows_refl.
  - apply grows_snoc.
Qed.

Lemma menu_grows select ins studs : grows studs (students (menu select ins studs)).
Proof.
  unfold menu.
  destruct (select =? 1); [apply add_student_grows|].
  destruct (select =? 2); [apply add_grades_grows|].
  destruct (select =? 3); [apply grows_refl|].
  destruct (select =? 4); [destruct (find_top_performer studs); apply grows_refl|].
  destruct (select =? 5); apply grows_refl.
Qed.

Lemma main_loop_grows fuel : forall ins studs,
  grows studs (students (main_loop fuel ins studs)).
Proof.
  induction fuel as [|fuel IH]; intros ins studs; [apply grows_refl|].
  destruct ins as [|raw ins]; [apply grows_refl|].
  rewrite main_loop_turn.
  destruct (Text.py_int raw) as [choice|]; [|apply IH].
  destruct (_ || _); [apply IH|].
  cbv zeta. pose proof (menu_grows choice ins studs) as M.
  destruct (ending (menu choice ins studs)); trivial.
  destruct (choice =? 5); trivial.
  eapply grows_trans; [exact M | apply IH].
Qed.

(** X11. The program never takes anything back: whatever is typed, every
    student of the roster keeps its place and its name, and its grades are
    kept in their order, new ones coming after them only.  No choice of the
    menu removes or renames a student, or removes or changes a grade. *)
Theorem roster_only_grows :
  (forall studs ins i s,
      nth_error studs i = Some s ->
      exists t more,
        nth_error (students (run_from studs ins)) i = Some t
        /\ name t = name s /\ grades t = grades s ++ more)
  /\ (forall select ins studs, grows studs (students (menu select ins studs)))
  /\ (forall studs ins,
        (List.length studs <= List.length (students (run_from studs ins)))%nat)
  /\ (forall ins studs, map name (students (add_grades ins studs)) = map name studs).
Proof.
  split; [|split; [|split]].
  - intros studs ins. apply main_loop_grows.
  - apply menu_grows.
  - intros studs ins.
    pose proof (main_loop_grows (S (List.length ins)) ins studs) as G.
    fold (run_from studs ins) in G.
    destruct (Nat.le_gt_cases (List.length studs)
                (List.length (students (run_from studs ins)))) as [L|L]; trivial.
    exfalso. destruct studs as [|s0 studs]; [simpl in L; lia|].
    destruct (nth_error (s0 :: studs) (List.length studs)) as [s|] eqn:N.
    + destruct (G _ _ N) as (t & more & T & _).
      assert (nth_error (students (run_from (s0 :: studs) ins)) (List.length studs) <> None) as X
        by congruence.
      apply nth_error_Some in X. simpl in L. lia.
    + apply nth_error_None in N. simpl in N. lia.
  - apply add_grades_names.
Qed.

(** *** Prompts and lines *)

Lemma prompts_app a b : prompts (a ++ b) = (prompts a + prompts b)%nat.
Proof.
  induction a as [|[line|text] a IH]; simpl; trivial. rewrite IH. reflexivity.
Qed.

Lemma check_input_prompts raw : prompts (snd (check_input raw)) = 1%nat.
Proof. unfold check_input. destruct (_ || _); reflexivity. Qed.

Lemma add_student_prompts ins studs :
  let r := add_student ins studs in
  (prompts (events r) + List.length (unread r) = List.length ins + failed_reads r)%nat.
Proof.
  induction ins as [|raw ins IH]; cbv zeta; [reflexivity|].
  cbn [add_student]. pose proof (check_input_prompts raw) as C.
  cbv zeta in IH. unfold failed_reads in *.
  destruct (check_input raw) as [[n|] evs]; cbn [snd] in C.
  - destruct (find_student n studs); cbn [after returned events unread ending List.length].
    + rewrite !prompts_app, C. simpl. lia.
    + rewrite C. lia.
  - cbn [after events unread ending List.length]. rewrite prompts_app, C. lia.
Qed.

Lemma enter_grades_prompts i ins : forall studs,
  let r := enter_grades i ins studs in
  (prompts (events r) + List.length (unread r) = List.length ins + failed_reads r)%nat.
Proof.
  induction ins as [|line ins IH]; intros studs; cbv zeta; [reflexivity|].
  cbn [enter_grades]. unfold failed_reads in *.
  destruct (valid_input line).
  - simpl. lia.
  - specialize (IH (append_grade i value studs)). simpl in *. lia.
  - specialize (IH studs). simpl in *. lia.
Qed.

Lemma add_grades_prompts ins studs :
  let r := add_grades ins studs in
  (prompts (events r) + List.length (unread r) = List.length ins + failed_reads r)%nat.
Proof.
  induction ins as [|raw ins IH]; cbv zeta; [reflexivity|].
  cbn [add_grades]. pose proof (check_input_prompts raw) as C.
  cbv zeta in IH. unfold failed_reads in *.
  destruct (check_input raw) as [[n|] evs]; cbn [snd] in C.
  - destruct (find_student n studs) as [i|];
      cbn [after returned events unread ending List.length].
    + pose proof (enter_grades_prompts i ins studs) as E. cbv zeta in E.
      unfold failed_reads in E. rewrite prompts_app, C. lia.
    + rewrite prompts_app, C. simpl. lia.
  - cbn [after events unread ending List.length]. rewrite prompts_app, C. lia.
Qed.

Lemma report_student_prints studs : forall evs avgs,
  prompts (fst (fold_left report_student studs (evs, avgs))) = prompts evs.
Proof.
  induction studs as [|s studs IH]; intros evs avgs; simpl; trivial.
  destruct (average (grades s)); rewrite IH, prompts_app; simpl; lia.
Qed.

Lemma show_report_prints studs : prompts (show_report studs) = 0%nat.
Proof.
  unfold show_report. destruct studs as [|s studs]; trivial.
  pose proof (report_student_prints (s :: studs) [report_title] []) as R.
  destruct (fold_left report_student (s :: studs) ([report_title], [])) as [evs avgs].
  simpl in R. rewrite prompts_app, R. destruct avgs; reflexivity.
Qed.

Lemma find_top_performer_prints studs evs :
  find_top_performer studs = Some evs -> prompts evs = 0%nat.
Proof.
  unfold find_top_performer. destruct studs as [|s studs]; [intros [= <-]; reflexivity|].
  destruct (filter has_grades (s :: studs)) as [|g gs]; [intros [= <-]; reflexivity|].
  destruct (top_student (g :: gs)) as [top|]; [|discriminate].
  destruct (average (grades top)); [|discriminate].
  intros [= <-]. reflexivity.
Qed.

Lemma menu_prompts select ins studs :
  let r := menu select ins studs in
  (prompts (events r) + List.length (unread r) = List.length ins + failed_reads r)%nat.
Proof.
  unfold menu.
  destruct (select =? 1); [apply add_student_prompts|].
  destruct (select =? 2); [apply add_grades_prompts|].
  destruct (select =? 3).
  { cbv zeta. unfold failed_reads. simpl. rewrite show_report_prints. lia. }
  destruct (select =? 4).
  { pose proof (find_top_performer_prints studs) as T.
    pose proof (find_top_performer_returns studs) as R.
    destruct (find_top_performer studs) as [evs|]; [|contradiction].
    cbv zeta. unfold failed_reads. simpl. rewrite (T evs eq_refl). lia. }
  destruct (select =? 5); cbv zeta; unfold failed_reads; simpl; lia.
Qed.

Lemma banner_prints : prompts banner = 0%nat.
Proof. reflexivity. Qed.

Lemma main_loop_prompts fuel : forall ins studs,
  (List.length ins < fuel)%nat ->
  let r := main_loop fuel ins studs in
  (prompts (events r) + List.length (unread r) = List.length ins + failed_reads r)%nat.
Proof.
  induction fuel as [|fuel IH]; intros ins studs L; [lia|].
  destruct ins as [|raw ins]; [reflexivity|].
  cbv zeta. rewrite main_loop_turn. simpl in L.
  assert (forall r : run,
            (prompts (events r) + List.length (unread r)
             = List.length ins + failed_reads r)%nat ->
            let r' := after (banner ++ [choice_prompt; range_error]) r in
            (prompts (events r') + List.length (unread r')
             = List.length (raw :: ins) + failed_reads r')%nat) as Bad.
  { intros r H. unfold failed_reads in *. cbn [after events unread ending List.length].
    rewrite !prompts_app, banner_prints. simpl. lia. }
  destruct (Text.py_int raw) as [choice|]; [|apply Bad, IH; lia].
  destruct (_ || _); [apply Bad, IH; lia|].
  cbv zeta.
  pose proof (menu_unread choice ins studs) as U.
  pose proof (menu_prompts choice ins studs) as M. cbv zeta in M.
  assert (let r' := after (banner ++ [choice_prompt]) (menu choice ins studs) in
          (prompts (events r') + List.length (unread r')
           = List.length (raw :: ins) + failed_reads r')%nat) as Stop.
  { unfold failed_reads in *. cbn [after events unread ending List.length].
    rewrite !prompts_app, banner_prints. simpl. lia. }
  destruct (ending (menu choice ins studs)) eqn:E; try exact Stop.
  destruct (choice =? 5); [exact Stop|].
  specialize (IH (unread (menu choice ins studs)) (students (menu choice ins studs))).
  cbv zeta in IH. unfold failed_reads in *. rewrite E in M.
  cbn [after events unread ending List.length].
  rewrite !prompts_app, banner_prints. simpl.
  specialize (IH ltac:(lia)). lia.
Qed.

(** X12. Every line that the program reads is asked for by one prompt of its
    own: in every run, the prompts written are as many as the lines read,
    and one more when the run ends because a prompt found the input at its
    end. *)
Theorem each_line_read_has_its_prompt :
  (forall studs ins,
      let r := run_from studs ins in
      (prompts (events r) + List.length (unread r)
       = List.length ins + failed_reads r)%nat)
  /\ (forall select ins studs,
      let r := menu select ins studs in
      (prompts (events r) + List.length (unread r)
       = List.length ins + failed_reads r)%nat).
Proof.
  split.
  - intros studs ins. apply main_loop_prompts. lia.
  - apply menu_prompts.
Qed.

(** *** A student added and graded *)

Lemma enter_grades_decimal before rest gs lines : forall s,
  Forall grade_ok gs ->
  enter_grades (List.length before) (map Text.decimal gs ++ "done" :: lines)
    (before ++ s :: rest)
  = returned lines (before ++ {| name := name s; grades := grades s ++ gs |} :: rest)
      (repeat grade_prompt (S (List.length gs))).
Proof.
  induction gs as [|g gs IH]; intros s H.
  - simpl. rewrite app_nil_r. destruct s; reflexivity.
  - inversion H as [|? ? G H']; subst.
    cbn [map List.app enter_grades]. rewrite valid_input_decimal.
    destruct G as [G0 G1]. apply Z.leb_le in G0, G1. rewrite G0, G1. cbn [andb].
    rewrite append_grade_at, IH by exact H'.
    cbn [name grades]. rewrite <- app_assoc. reflexivity.
Qed.

(** X13. A student added and then graded in one session: after the choice 1
    and a new name, the choice 2 with the same name, however typed, and
    grades between 0 and 100 written as [str] writes them, closed by
    "done", the roster has at its end the student with exactly these
    grades, and the menu is shown again. *)
Theorem student_added_then_graded
  (c1 raw1 c2 raw2 n : string) (gs : list Z) (lines : list string) (studs : roster) :
  Text.py_int c1 = Some 1 -> Text.py_int c2 = Some 2 ->
  fst (check_input raw1) = Some n -> fst (check_input raw2) = Some n ->
  ~ In n (map name studs) ->
  Forall grade_ok gs ->
  run_from studs (c1 :: raw1 :: c2 :: raw2 :: map Text.decimal gs ++ "done" :: lines)
  = after (banner ++ [choice_prompt; name_prompt]
           ++ banner ++ [choice_prompt; name_prompt]
           ++ repeat grade_prompt (S (List.length gs)))
          (run_from (studs ++ [{| name := n; grades := gs |}]) lines).
Proof.
  intros P1 P2 C1 C2 F G.
  pose proof (run_from_operation c1 1
                (raw1 :: c2 :: raw2 :: map Text.decimal gs ++ "done" :: lines)
                studs P1 ltac:(lia)) as R1.
  cbv zeta in R1.
  change (menu 1 ?i ?s) with (add_student i s) in R1.
  rewrite (add_student_fresh _ _ _ _ C1 F) in R1.
  cbn [ending returned events students unread] in R1. rewrite R1.
  pose proof (run_from_operation c2 2
                (raw2 :: map Text.decimal gs ++ "done" :: lines)
                (studs ++ [new_student n]) P2 ltac:(lia)) as R2.
  cbv zeta in R2.
  change (menu 2 ?i ?s) with (add_grades i s) in R2.
  assert (add_grades (raw2 :: map Text.decimal gs ++ "done" :: lines)
            (studs ++ [new_student n])
          = returned lines (studs ++ [{| name := n; grades := gs |}])
              (name_prompt :: repeat grade_prompt (S (List.length gs)))) as A.
  { cbn [add_grades]. rewrite (check_input_some _ _ C2).
    rewrite find_student_app. apply find_student_none in F. rewrite F.
    cbn [find_student new_student name]. rewrite String.eqb_refl.
    cbn [option_map]. rewrite Nat.add_0_r.
    rewrite (enter_grades_decimal studs [] gs lines (new_student n) G).
    reflexivity. }
  rewrite A in R2. cbn [ending returned events students unread] in R2.
  rewrite R2, after_after. reflexivity.
Qed.

Lemma student_added_then_graded_witness :
  run_from [ada]
    ("1" :: " cy " :: " 2 " :: "CY" :: map Text.decimal [100; 0; 57] ++ "done" :: ["3"])
  = after (banner ++ [choice_prompt; name_prompt]
           ++ banner ++ [choice_prompt; name_prompt]
           ++ repeat grade_prompt (S (List.length [100; 0; 57])))
          (run_from ([ada] ++ [{| name := "Cy"; grades := [100; 0; 57] |}]) ["3"]).
Proof.
  apply (student_added_then_graded "1" " cy " " 2 " "CY" "Cy" [100; 0; 57] ["3"] [ada]).
  - reflexivity.
  - reflexivity.
  - reflexivity.
  - reflexivity.
  - vm_compute. intros [H|[]]; discriminate.
  - repeat constructor; vm_compute; discriminate.
Defined.

(** *** The report and the top performer agree *)

Lemma tenths_order a b :
  0 <= a -> a < b -> b <= 1000 ->
  SFltb (Float.div_nat false a 10) (Float.div_nat false b 10) = true.
Proof.
  intros A L B.
  assert (close_to (Float.div_nat false b 10) false b 10) as Cb
    by (apply div_nat_close; lia).
  destruct (Z.eq_dec a 0) as [->|Na].
  - rewrite div_nat_zero. destruct Cb as (m & k & -> & _). reflexivity.
  - apply (close_ltb _ _ a 10 b 10); trivial; try lia.
    apply div_nat_close; lia.
Qed.

Lemma tenths_leb a b :
  0 <= a -> a <= 1000 -> 0 <= b -> b <= 1000 ->
  SFleb (Float.div_nat false b 10) (Float.div_nat false a 10) = true -> b <= a.
Proof.
  intros A0 A1 B0 B1 H. destruct (Z.le_gt_cases b a) as [L|L]; trivial.
  apply leb_not_ltb in H. rewrite tenths_order in H by lia. discriminate.
Qed.

Lemma nearest_tenth_order gs1 gs2 n1 n2 :
  0 < len gs1 -> 0 < len gs2 ->
  nearest_tenth gs1 n1 -> nearest_tenth gs2 n2 ->
  mean_below gs1 gs2 -> n1 <= n2.
Proof.
  unfold nearest_tenth, mean_below.
  generalize (len gs1) (len gs2) (total gs1) (total gs2). intros l1 l2 t1 t2 L1 L2 N1 N2 M.
  destruct (Z.le_gt_cases n1 n2) as [L|L]; trivial. exfalso.
  assert ((2 * n1 - 1) * l1 <= 20 * t1) as P1 by lia.
  assert (20 * t2 <= (2 * n2 + 1) * l2) as P2 by lia.
  assert ((2 * n1 - 1) * l1 * l2 <= 20 * t1 * l2) as Q1 by nia.
  assert (20 * t2 * l1 <= (2 * n2 + 1) * l2 * l1) as Q2 by nia.
  assert ((2 * n2 + 1) * (l1 * l2) < (2 * n1 - 1) * (l1 * l2)) as Q3.
  { apply Z.mul_lt_mono_pos_r; nia. }
  nia.
Qed.

(** The greatest of the averages of the report is the average of the student
    whose mean is the greatest. *)
Lemma greatest_average_is_top studs top g :
  (forall s, In s studs -> grades_ok (grades s)) ->
  first_greatest_mean (filter has_grades studs) top ->
  greatest (averages_of studs) g ->
  average (grades top) = Some g.
Proof.
  intros V (before & later & E & B & A) [I G].
  assert (In top (filter has_grades studs)) as T
    by (rewrite E; apply in_or_app; right; left; reflexivity).
  pose proof T as T'. apply filter_In in T'. destruct T' as [Ts Tg].
  apply has_grades_true in Tg.
  unfold averages_of in I. apply in_flat_map in I. destruct I as (t & It & Ig).
  destruct (average (grades t)) as [a|] eqn:At; [|contradiction].
  destruct Ig as [<-|[]].
  assert (grades t <> []) as Ng.
  { intros Z. apply average_none in Z. congruence. }
  assert (~ mean_below (grades top) (grades t)) as M.
  { assert (In t (filter has_grades studs)) as F
      by (apply filter_In; split; [exact It | apply has_grades_true, Ng]).
    rewrite E in F. apply in_app_or in F. destruct F as [F|[<-|F]].
    - specialize (B t F). unfold mean_below in *. lia.
    - unfold mean_below. lia.
    - apply A, F. }
  destruct (V t It) as [Vt Lt]. destruct (V top Ts) as [Vtop Ltop].
  destruct (Z.eq_dec (total (grades t) * len (grades top))
                     (total (grades top) * len (grades t))) as [Eq|Ne].
  - unfold average in *.
    rewrite <- (mean_equal (grades t) (grades top) Ng Tg (V t It) (V top Ts) Eq).
    exact At.
  - assert (mean_below (grades t) (grades top)) as S
      by (unfold mean_below in *; lia).
    destruct (average_exact (grades t) Ng Vt ltac:(lia)) as (nt & Nt & Rt & At' & _).
    destruct (average_exact (grades top) Tg Vtop ltac:(lia)) as (ntop & Ntop & Rtop & Atop & _).
    assert (nt <= ntop) as L1
      by (apply (nearest_tenth_order (grades t) (grades top)); auto using len_pos).
    assert (In (Float.div_nat false ntop 10) (averages_of studs)) as Itop.
    { unfold averages_of. apply in_flat_map. exists top. rewrite Atop.
      split; [exact Ts | left; reflexivity]. }
    specialize (G _ Itop). rewrite At' in At. injection At as <-.
    apply tenths_leb in G; try lia.
    rewrite Atop. do 2 f_equal. lia.
Qed.

(** X14. The two reports agree: for grades between 0 and 100 (fewer than
    2^23 for a student), the "Max average" of the report is the grade that
    "Find top performer" prints for its student, although the first is the
    greatest of the rounded averages and the second the rounded greatest
    mean. *)
Theorem report_max_is_top_performer_grade (studs : roster) :
  (forall s, In s studs -> grades_ok (grades s)) ->
  (exists s, In s studs /\ grades s <> []) ->
  exists top grade least_line overall_line,
    In top studs
    /\ find_top_performer studs
       = Some [Print ("The student with the highest average is " +++ name top
                      +++ " with a grade of " +++ Float.repr grade)]
    /\ show_report studs
       = report_title :: map student_line studs
         ++ [ report_rule; Print ("Max average: " +++ Float.repr grade);
              least_line; overall_line ].
Proof.
  intros V (s & Is & Gs).
  assert (In s (filter has_grades studs)) as F
    by (apply filter_In; split; [exact Is | apply has_grades_true, Gs]).
  pose proof (find_top_performer_shape studs) as T.
  destruct studs as [|s0 studs]; [contradiction|].
  destruct (filter has_grades (s0 :: studs)) as [|f fs] eqn:Fl; [contradiction|].
  destruct T as (top & q & St & Q & T). rewrite <- Fl in St.
  assert (first_greatest_mean (filter has_grades (s0 :: studs)) top) as Fg.
  { apply top_first_greatest; trivial. intros t It _. apply V, It. }
  assert (In top (s0 :: studs)) as Itop.
  { apply stable_max_in in St. apply filter_In in St. tauto. }
  pose proof (averages_of_not_nan (s0 :: studs)) as Nn.
  pose proof (averages_of_tenths (s0 :: studs)) as Tf.
  assert (averages_of (s0 :: studs) <> []) as Na.
  { intros Z. apply averages_of_nil in Z. congruence. }
  rewrite show_report_shape by discriminate.
  destruct (averages_of (s0 :: studs)) as [|first others] eqn:Av; [contradiction|].
  pose proof (max_is_greatest first others Nn) as G. rewrite <- Av in G.
  pose proof (greatest_average_is_top _ _ _ V Fg G) as At.
  assert (Float.round1 (Float.max first others) = Float.max first others) as R.
  { destruct G as [I _]. rewrite Av in I.
    assert (Forall tenths_float (first :: others)) as Tf'.
    { apply Tf. intros t It. destruct (V t It) as [Vt Lt]. split; [exact Vt | lia]. }
    rewrite Forall_forall in Tf'. destruct (Tf' _ I) as (n & _ & _ & Rn & _). exact Rn. }
  exists top, (Float.round1 q). do 2 eexists.
  split; [exact Itop|]. split; [exact T|].
  unfold summary. rewrite R.
  unfold average in At. rewrite Q in At. injection At as <-.
  reflexivity.
Qed.

Lemma report_max_is_top_performer_grade_witness :
  exists top grade least_line overall_line,
    In top [ada; cy; bob]
    /\ find_top_performer [ada; cy; bob]
       = Some [Print ("The student with the highest average is " +++ name top
                      +++ " with a grade of " +++ Float.repr grade)]
    /\ show_report [ada; cy; bob]
       = report_title :: map student_line [ada; cy; bob]
         ++ [ report_rule; Print ("Max average: " +++ Float.repr grade);
              least_line; overall_line ].
Proof.
  apply (report_max_is_top_performer_grade [ada; cy; bob]).
  - intros s [<-|[<-|[<-|[]]]]; split; try (vm_compute; discriminate);
      repeat constructor; vm_compute; discriminate.
  - exists ada. split; [left; reflexivity | discriminate].
Defined.

(** *** The lines that are not read *)

Lemma with_more_after more evs r : with_more more (after evs r) = after evs (with_more more r).
Proof. reflexivity. Qed.

Lemma add_student_frame more ins studs :
  ending (add_student ins studs) = Returned ->
  add_student (ins ++ more) studs = with_more more (add_student ins studs).
Proof.
  induction ins as [|raw ins IH]; [discriminate|].
  cbn [List.app add_student].
  destruct (check_input raw) as [[n|] evs].
  - destruct (find_student n studs); [|reflexivity].
    intros E. rewrite with_more_after, IH by exact E. reflexivity.
  - intros E. rewrite with_more_after, IH by exact E. reflexivity.
Qed.

Lemma enter_grades_frame more i ins : forall studs,
  ending (enter_grades i ins studs) = Returned ->
  enter_grades i (ins ++ more) studs = with_more more (enter_grades i ins studs).
Proof.
  induction ins as [|line ins IH]; intros studs; [discriminate|].
  cbn [List.app enter_grades].
  destruct (valid_input line); [reflexivity| |];
    intros E; rewrite with_more_after, IH by exact E; reflexivity.
Qed.

Lemma add_grades_frame more ins studs :
  ending (add_grades ins studs) = Returned ->
  add_grades (ins ++ more) studs = with_more more (add_grades ins studs).
Proof.
  induction ins as [|raw ins IH]; [discriminate|].
  cbn [List.app add_grades].
  destruct (check_input raw) as [[n|] evs].
  - destruct (find_student n studs) as [i|]; [|reflexivity].
    intros E. rewrite with_more_after, enter_grades_frame by exact E. reflexivity.
  - intros E. rewrite with_more_after, IH by exact E. reflexivity.
Qed.

Lemma menu_frame more select ins studs :
  ending (menu select ins studs) = Returned ->
  menu select (ins ++ more) studs = with_more more (menu select ins studs).
Proof.
  unfold menu.
  destruct (select =? 1); [apply add_student_frame|].
  destruct (select =? 2); [apply add_grades_frame|].
  destruct (select =? 3); [reflexivity|].
  destruct (select =? 4); [destruct (find_top_performer studs); reflexivity|].
  destruct (select =? 5); reflexivity.
Qed.

Lemma main_loop_frame more fuel : forall fuel' ins studs,
  (List.length ins < fuel)%nat -> (List.length (ins ++ more) < fuel')%nat ->
  ending (main_loop fuel ins studs) = Returned ->
  main_loop fuel' (ins ++ more) studs = with_more more (main_loop fuel ins studs).
Proof.
  induction fuel as [|fuel IH]; intros fuel' ins studs L L' E; [lia|].
  destruct ins as [|raw ins]; [discriminate|].
  destruct fuel' as [|fuel']; [lia|].
  cbn [List.app] in *. rewrite !main_loop_turn. rewrite main_loop_turn in E.
  cbn [List.length] in L, L'.
  destruct (Text.py_int raw) as [choice|];
    [|rewrite with_more_after; f_equal; apply IH; trivial; lia].
  destruct (_ || _);
    [rewrite with_more_after; f_equal; apply IH; trivial; lia|].
  cbv zeta in *.
  pose proof (menu_unread choice ins studs) as U.
  pose proof (menu_frame more choice ins studs) as M.
  destruct (ending (menu choice ins studs)) eqn:Em;
    try (cbn [after ending] in E; congruence).
  rewrite M by reflexivity. cbn [with_more ending]. rewrite Em.
  destruct (choice =? 5); [reflexivity|].
  rewrite with_more_after. cbn [with_more events students unread]. f_equal.
  apply IH; trivial; rewrite ?length_app in *; lia.
Qed.

(** X15. Once the program has ended by the choice 5, nothing that follows in
    the input matters: with more lines after those given, it writes the
    same, keeps the same roster and leaves the further lines unread after
    those it had left. *)
Theorem lines_after_the_exit_are_not_read (studs : roster) (ins more : list string) :
  ending (run_from studs ins) = Returned ->
  run_from studs (ins ++ more)
  = {| unread := unread (run_from studs ins) ++ more;
       students := students (run_from studs ins);
       events := events (run_from studs ins);
       ending := Returned |}.
Proof.
  intros E. unfold run_from in *.
  rewrite (main_loop_frame more (S (List.length ins))) by (trivial; lia).
  unfold with_more. rewrite E. reflexivity.
Qed.

Lemma lines_after_the_exit_are_not_read_witness :
  run_from [ada] (["1"; "bob"; "5"; "7"] ++ ["2"; "x"])
  = {| unread := unread (run_from [ada] ["1"; "bob"; "5"; "7"]) ++ ["2"; "x"];
       students := students (run_from [ada] ["1"; "bob"; "5"; "7"]);
       events := events (run_from [ada] ["1"; "bob"; "5"; "7"]);
       ending := Returned |}.
Proof.
  apply (lines_after_the_exit_are_not_read [ada] ["1"; "bob"; "5"; "7"] ["2"; "x"]).
  reflexivity.
Defined.

(** *** What is written for the beginning of the input *)

Lemma written_first_same r r' : events r' = events r -> written_first r r'.
Proof. intros E. exists []. rewrite app_nil_r. exact E. Qed.

Lemma written_first_after evs r r' :
  written_first r r' -> written_first (after evs r) (after evs r').
Proof.
  intros [later E]. exists later. cbn [after events]. rewrite E, app_assoc. reflexivity.
Qed.

Lemma check_input_first raw : exists evs, snd (check_input raw) = name_prompt :: evs.
Proof. unfold check_input. destruct (_ || _); eexists; reflexivity. Qed.

Lemma add_student_first ins studs :
  exists evs, events (add_student ins studs) = name_prompt :: evs.
Proof.
  destruct ins as [|raw ins]; [eexists; reflexivity|]. cbn [add_student].
  destruct (check_input_first raw) as [evs C].
  destruct (check_input raw) as [[n|] evs0]; cbn [snd] in C; subst evs0.
  - destruct (find_student n studs); eexists; reflexivity.
  - eexists; reflexivity.
Qed.

Lemma add_grades_first ins studs :
  exists evs, events (add_grades ins studs) = name_prompt :: evs.
Proof.
  destruct ins as [|raw ins]; [eexists; reflexivity|]. cbn [add_grades].
  destruct (check_input_first raw) as [evs C].
  destruct (check_input raw) as [[n|] evs0]; cbn [snd] in C; subst evs0.
  - destruct (find_student n studs); eexists; reflexivity.
  - eexists; reflexivity.
Qed.

Lemma enter_grades_first i ins studs :
  exists evs, events (enter_grades i ins studs) = grade_prompt :: evs.
Proof.
  destruct ins as [|line ins]; [eexists; reflexivity|]. cbn [enter_grades].
  destruct (valid_input line); eexists; reflexivity.
Qed.

Lemma main_loop_first fuel ins studs :
  exists evs, events (main_loop (S fuel) ins studs) = (banner ++ [choice_prompt]) ++ evs.
Proof.
  destruct ins as [|raw ins]; [exists []; reflexivity|]. rewrite main_loop_turn.
  destruct (Text.py_int raw) as [choice|]; [|eexists; reflexivity].
  destruct (_ || _); [eexists; reflexivity|].
  cbv zeta. destruct (ending (menu choice ins studs));
    try (eexists; reflexivity).
  destruct (choice =? 5); eexists; reflexivity.
Qed.

Lemma add_student_written more ins studs :
  written_first (add_student ins studs) (add_student (ins ++ more) studs).
Proof.
  induction ins as [|raw ins IH].
  - destruct (add_student_first more studs) as [evs E]. exists evs.
    change ([] ++ more) with more. rewrite E. reflexivity.
  - cbn [List.app add_student].
    destruct (check_input raw) as [[n|] evs].
    + destruct (find_student n studs);
        [apply written_first_after, IH | apply written_first_same; reflexivity].
    + apply written_first_after, IH.
Qed.

Lemma enter_grades_written more i ins : forall studs,
  written_first (enter_grades i ins studs) (enter_grades i (ins ++ more) studs).
Proof.
  induction ins as [|line ins IH]; intros studs.
  - destruct (enter_grades_first i more studs) as [evs E]. exists evs.
    change ([] ++ more) with more. rewrite E. reflexivity.
  - cbn [List.app enter_grades].
    destruct (valid_input line);
      [apply written_first_same; reflexivity | apply written_first_after, IH
       | apply written_first_after, IH].
Qed.

Lemma add_grades_written more ins studs :
  written_first (add_grades ins studs) (add_grades (ins ++ more) studs).
Proof.
  induction ins as [|raw ins IH].
  - destruct (add_grades_first more studs) as [evs E]. exists evs.
    change ([] ++ more) with more. rewrite E. reflexivity.
  - cbn [List.app add_grades].
    destruct (check_input raw) as [[n|] evs].
    + destruct (find_student n studs);
        [apply written_first_after, enter_grades_written | apply written_first_same; reflexivity].
    + apply written_first_after, IH.
Qed.

Lemma menu_written more select ins studs :
  written_first (menu select ins studs) (menu select (ins ++ more) studs).
Proof.
  unfold menu.
  destruct (select =? 1); [apply add_student_written|].
  destruct (select =? 2); [apply add_grades_written|].
  destruct (select =? 3); [apply written_first_same; reflexivity|].
  destruct (select =? 4); [destruct (find_top_performer studs); apply written_first_same; reflexivity|].
  destruct (select =? 5); apply written_first_same; reflexivity.
Qed.

Lemma main_loop_written more fuel : forall fuel' ins studs,
  (List.length ins < fuel)%nat -> (List.length (ins ++ more) < fuel')%nat ->
  written_first (main_loop fuel ins studs) (main_loop fuel' (ins ++ more) studs).
Proof.
  induction fuel as [|fuel IH]; intros fuel' ins studs L L'; [lia|].
  destruct fuel' as [|fuel']; [lia|].
  destruct ins as [|raw ins].
  - destruct (main_loop_first fuel' ([] ++ more) studs) as [evs E].
    exists evs. unfold written_first. rewrite E. reflexivity.
  - cbn [List.app] in *. rewrite !main_loop_turn. cbn [List.length] in L, L'.
    destruct (Text.py_int raw) as [choice|];
      [|apply written_first_after, IH; lia].
    destruct (_ || _); [apply written_first_after, IH; lia|].
    cbv zeta.
    pose proof (menu_unread choice ins studs) as U.
    pose proof (menu_frame more choice ins studs) as M.
    pose proof (menu_written more choice ins studs) as [later W].
    assert (forall r', events r' = events (menu choice ins studs) ++ later ->
              written_first (after (banner ++ [choice_prompt]) (menu choice ins studs))
                (if choice =? 5 then after (banner ++ [choice_prompt]) r'
                 else after (banner ++ [choice_prompt] ++ events r')
                            (main_loop fuel' (unread r') (students r'))
                 ) /\
              written_first (after (banner ++ [choice_prompt]) (menu choice ins studs))
                (after (banner ++ [choice_prompt]) r')) as Stop.
    { intros r' Er. split.
      - destruct (choice =? 5).
        + exists later. cbn [after events]. rewrite Er, !app_assoc. reflexivity.
        + eexists. cbn [after events]. rewrite Er, <- !app_assoc. reflexivity.
      - exists later. cbn [after events]. rewrite Er, !app_assoc. reflexivity. }
    destruct (ending (menu choice ins studs)) eqn:Em.
    + rewrite M by reflexivity. cbn [with_more ending events students unread]. rewrite Em.
      destruct (choice =? 5); [apply written_first_same; reflexivity|].
      apply written_first_after, IH; [lia|]. rewrite length_app in *. lia.
    + destruct (ending (menu choice (ins ++ more) studs)); apply Stop, W.
    + destruct (ending (menu choice (ins ++ more) studs)); apply Stop, W.
    + destruct (ending (menu choice (ins ++ more) studs)); apply Stop, W.
Qed.

(** X16. The program writes as it reads: what it writes for the first lines
    of an input is the beginning of what it writes for the whole input,
    whether the first lines end the program, or stop at the menu or in the
    middle of a student's name or grades. *)
Theorem output_for_a_prefix_is_a_prefix :
  (forall studs ins more,
      exists later,
        events (run_from studs (ins ++ more)) = events (run_from studs ins) ++ later)
  /\ (forall select studs ins more,
      exists later,
        events (menu select (ins ++ more) studs)
        = events (menu select ins studs) ++ later).
Proof.
  split.
  - intros studs ins more. apply main_loop_written; lia.
  - intros select studs ins more. apply menu_written.
Qed.

(** *** A student without grades in the reports *)

Lemma averages_of_app a b : averages_of (a ++ b) = averages_of a ++ averages_of b.
Proof. unfold averages_of. apply flat_map_app. Qed.

(** X17. A student just added shows in the report as one more line, "N/A",
    after those of the others, and changes nothing in the summary nor, when
    there were students already, in the answer of "Find top performer". *)
Theorem reports_after_adding_a_student (n : string) (studs : roster) :
  show_report (studs ++ [new_student n])
  = report_title :: map student_line studs
    ++ [Print (n +++ "'s average grade is N/A.")]
    ++ summary (averages_of studs)
  /\ (studs <> [] ->
      find_top_performer (studs ++ [new_student n]) = find_top_performer studs)
  /\ find_top_performer ([] ++ [new_student n]) = Some [Print "No grades available"].
Proof.
  split; [|split].
  - rewrite show_report_shape by (destruct studs; discriminate).
    rewrite map_app, averages_of_app, <- app_assoc. simpl. rewrite app_nil_r.
    reflexivity.
  - intros N. destruct studs as [|s studs]; [contradiction|].
    unfold find_top_performer. cbn [List.app].
    change (s :: studs ++ [new_student n]) with ((s :: studs) ++ [new_student n]).
    rewrite filter_app. simpl (filter has_grades [new_student n]).
    rewrite app_nil_r. reflexivity.
  - reflexivity.
Qed.

(** *** Blanks around a grade *)

Lemma blank_not_digit c :
  Text.c_isspace c = true ->
  Text.isdigit c = false /\ (Text.code c =? 95) = false
  /\ Text.to_lower c <> "d"%char /\ Text.to_lower c <> "e"%char.
Proof.
  destruct c as [[] [] [] [] [] [] [] []]; vm_compute; intros H;
    try discriminate; repeat split; discriminate.
Qed.

Lemma skip_blanks_last c s :
  Text.c_isspace c = true ->
  Text.skip_blanks (s +++ String c "")
  = match Text.skip_blanks s with
    | EmptyString => EmptyString
    | t => t +++ String c ""
    end.
Proof.
  intros B. induction s as [|d s IH]; simpl.
  - rewrite B. reflexivity.
  - destruct (Text.c_isspace d); [exact IH | reflexivity].
Qed.

Lemma int_digits_last c s : forall u acc,
  Text.c_isspace c = true ->
  Text.int_digits u acc (s +++ String c "")
  = match Text.int_digits u acc s with
    | Some (v, rest) => Some (v, rest +++ String c "")
    | None => None
    end.
Proof.
  induction s as [|d s IH]; intros u acc B; simpl.
  - destruct (blank_not_digit c B) as (-> & -> & _). destruct u; reflexivity.
  - destruct (Text.isdigit d); [apply IH, B|].
    destruct (Text.code d =? 95).
    + destruct u; [reflexivity | apply IH, B].
    + destruct u; reflexivity.
Qed.

Lemma int_magnitude_last c s :
  Text.c_isspace c = true ->
  Text.int_magnitude (s +++ String c "") = Text.int_magnitude s.
Proof.
  intros B. destruct s as [|d s]; simpl.
  - destruct (blank_not_digit c B) as (-> & _). reflexivity.
  - destruct (Text.isdigit d); trivial.
    rewrite int_digits_last by exact B.
    destruct (Text.int_digits false (Text.digit_value d) s) as [[v rest]|]; trivial.
    rewrite skip_blanks_last by exact B.
    destruct (Text.skip_blanks rest); reflexivity.
Qed.

Lemma py_int_last c s :
  Text.c_isspace c = true -> Text.py_int (s +++ String c "") = Text.py_int s.
Proof.
  intros B. unfold Text.py_int. rewrite skip_blanks_last by exact B.
  destruct (Text.skip_blanks s) as [|d t]; trivial.
  change (String d t +++ String c "") with (String d (t +++ String c "")).
  pose proof (int_magnitude_last c t B) as T.
  pose proof (int_magnitude_last c (String d t) B) as D.
  change (String d t +++ String c "") with (String d (t +++ String c "")) in D.
  destruct d as [[] [] [] [] [] [] [] []]; rewrite ?T; trivial; exact D.
Qed.

Lemma py_int_first c s :
  Text.c_isspace c = true -> Text.py_int (String c s) = Text.py_int s.
Proof. intros B. unfold Text.py_int. simpl. rewrite B. reflexivity. Qed.

Lemma lower_last_not_done c s :
  Text.c_isspace c = true -> Text.lower (s +++ String c "") <> "done".
Proof.
  intros B. destruct (blank_not_digit c B) as (_ & _ & _ & E).
  destruct s as [|c1 [|c2 [|c3 [|c4 s]]]]; simpl; try discriminate.
  - intros [= _ _ _ H]. contradiction.
  - intros [= _ _ _ _ H]. destruct s; discriminate.
Qed.

(** X18. Blanks before or after a grade do not matter, since [int] skips
    them; before or after "done" they do, since the word is compared as it
    is typed: such a line is invalid, and the loop of the grades goes on. *)
Theorem valid_input_with_blanks (c : ascii) (s : string) :
  Text.c_isspace c = true ->
  let unless_done := match valid_input s with Done => Invalid | other => other end in
  valid_input (String c s) = unless_done
  /\ valid_input (s +++ String c "") = unless_done.
Proof.
  intros B. cbv zeta.
  assert (Text.lower s = "done" -> Text.py_int s = None) as D
    by apply lower_done_not_int.
  unfold valid_input. rewrite py_int_first, py_int_last by exact B.
  assert (String.eqb (Text.lower (String c s)) "done" = false) as ->.
  { apply String.eqb_neq. simpl. intros [= H _].
    destruct (blank_not_digit c B) as (_ & _ & E & _). contradiction. }
  assert (String.eqb (Text.lower (s +++ String c "")) "done" = false) as ->
    by (apply String.eqb_neq, lower_last_not_done, B).
  destruct (String.eqb_spec (Text.lower s) "done") as [E|E].
  - rewrite (D E). split; reflexivity.
  - destruct (Text.py_int s) as [v|]; [|split; reflexivity].
    destruct (_ && _); split; reflexivity.
Qed.

Lemma valid_input_with_blanks_witness :
  let unless_done := match valid_input "done" with Done => Invalid | other => other end in
  valid_input (String " " "done") = unless_done
  /\ valid_input ("done" +++ String " " "") = unless_done.
Proof.
  apply (valid_input_with_blanks " " "done"). reflexivity.
Defined.

(** *** The roster for the beginning of the input *)

Lemma add_student_kept more ins studs :
  grows (students (add_student ins studs)) (students (add_student (ins ++ more) studs)).
Proof.
  induction ins as [|raw ins IH]; [apply add_student_grows|].
  cbn [List.app add_student].
  destruct (check_input raw) as [[n|] evs]; [|exact IH].
  destruct (find_student n studs); [exact IH | apply grows_refl].
Qed.

Lemma enter_grades_kept more i ins : forall studs,
  grows (students (enter_grades i ins studs))
        (students (enter_grades i (ins ++ more) studs)).
Proof.
  induction ins as [|line ins IH]; intros studs; [apply enter_grades_grows|].
  cbn [List.app enter_grades].
  destruct (valid_input line); [apply grows_refl | apply IH | apply IH].
Qed.

Lemma add_grades_kept more ins studs :
  grows (students (add_grades ins studs)) (students (add_grades (ins ++ more) studs)).
Proof.
  induction ins as [|raw ins IH]; [apply add_grades_grows|].
  cbn [List.app add_grades].
  destruct (check_input raw) as [[n|] evs]; [|exact IH].
  destruct (find_student n studs); [apply enter_grades_kept | apply grows_refl].
Qed.

Lemma menu_kept more select ins studs :
  grows (students (menu select ins studs)) (students (menu select (ins ++ more) studs)).
Proof.
  unfold menu.
  destruct (select =? 1); [apply add_student_kept|].
  destruct (select =? 2); [apply add_grades_kept|].
  destruct (select =? 3); [apply grows_refl|].
  destruct (select =? 4); [destruct (find_top_performer studs); apply grows_refl|].
  destruct (select =? 5); apply grows_refl.
Qed.

Lemma main_loop_kept more fuel : forall fuel' ins studs,
  (List.length ins < fuel)%nat -> (List.length (ins ++ more) < fuel')%nat ->
  grows (students (main_loop fuel ins studs))
        (students (main_loop fuel' (ins ++ more) studs)).
Proof.
  induction fuel as [|fuel IH]; intros fuel' ins studs L L'; [lia|].
  destruct fuel' as [|fuel']; [lia|].
  destruct ins as [|raw ins]; [apply main_loop_grows|].
  cbn [List.app] in *. rewrite !main_loop_turn. cbn [List.length] in L, L'.
  destruct (Text.py_int raw) as [choice|]; [|apply IH; lia].
  destruct (_ || _); [apply IH; lia|].
  cbv zeta.
  pose proof (menu_unread choice ins studs) as U.
  pose proof (menu_frame more choice ins studs) as M.
  pose proof (menu_kept more choice ins studs) as K.
  assert (forall r',
            grows (students (menu choice ins studs)) (students r') ->
            grows (students (menu choice ins studs))
              (students (if choice =? 5 then after (banner ++ [choice_prompt]) r'
                         else after (banner ++ [choice_prompt] ++ events r')
                                (main_loop fuel' (unread r') (students r'))))) as Stop.
  { intros r' G. destruct (choice =? 5); [exact G|].
    eapply grows_trans; [exact G | apply main_loop_grows]. }
  destruct (ending (menu choice ins studs)) eqn:Em.
  - rewrite M by reflexivity. cbn [with_more ending events students unread]. rewrite Em.
    destruct (choice =? 5); [apply grows_refl|].
    apply IH; [lia|]. rewrite length_app in *. lia.
  - destruct (ending (menu choice (ins ++ more) studs)); try exact K. apply Stop, K.
  - destruct (ending (menu choice (ins ++ more) studs)); try exact K. apply Stop, K.
  - destruct (ending (menu choice (ins ++ more) studs)); try exact K. apply Stop, K.
Qed.

(** X19. The roster built from the first lines of an input is kept when the
    input goes on: every student stored after the first lines is there
    after all of them, at the same place and under the same name, with the
    same grades followed by those typed later. *)
Theorem roster_for_a_prefix_is_kept :
  (forall studs ins more i s,
      nth_error (students (run_from studs ins)) i = Some s ->
      exists t later,
        nth_error (students (run_from studs (ins ++ more))) i = Some t
        /\ name t = name s /\ grades t = grades s ++ later)
  /\ (forall select studs ins more,
      grows (students (menu select ins studs))
            (students (menu select (ins ++ more) studs))).
Proof.
  split.
  - intros studs ins more. apply main_loop_kept; lia.
  - intros select studs ins more. apply menu_kept.
Qed.

(** *** The order of the roster *)

(** The grade that "Find top performer" prints is the greatest of the
    averages of the report. *)
Lemma top_grade_greatest studs :
  (forall s, In s studs -> grades_ok (grades s)) ->
  (exists s, In s studs /\ grades s <> []) ->
  exists top g n,
    In top studs /\ grades top <> []
    /\ find_top_performer studs = Some [top_line (name top) g]
    /\ greatest (averages_of studs) g
    /\ 0 <= n <= 1000 /\ g = Float.div_nat false n 10
    /\ (forall t, In t studs -> grades t <> [] ->
          ~ mean_below (grades top) (grades t)).
Proof.
  intros V (s & Is & Gs).
  assert (In s (filter has_grades studs)) as F
    by (apply filter_In; split; [exact Is | apply has_grades_true, Gs]).
  pose proof (find_top_performer_shape studs) as T.
  destruct studs as [|s0 studs]; [contradiction|].
  destruct (filter has_grades (s0 :: studs)) as [|f fs] eqn:Fl; [contradiction|].
  destruct T as (top & q & St & Q & T). rewrite <- Fl in St.
  assert (first_greatest_mean (filter has_grades (s0 :: studs)) top) as Fg.
  { apply top_first_greatest; trivial. intros t It _. apply V, It. }
  assert (In top (s0 :: studs) /\ grades top <> []) as [Itop Gtop].
  { apply stable_max_in in St. apply filter_In in St.
    rewrite has_grades_true in St. exact St. }
  pose proof (averages_of_not_nan (s0 :: studs)) as Nn.
  assert (averages_of (s0 :: studs) <> []) as Na.
  { intros Z. apply averages_of_nil in Z. congruence. }
  destruct (averages_of (s0 :: studs)) as [|first others] eqn:Av; [contradiction|].
  pose proof (max_is_greatest first others Nn) as G. rewrite <- Av in G.
  pose proof (greatest_average_is_top _ _ _ V Fg G) as At.
  destruct (V top Itop) as [Vt Lt].
  destruct (average_exact (grades top) Gtop Vt ltac:(lia)) as (n & _ & Rn & An & _).
  exists top, (Float.round1 q), n.
  unfold average in At, An. rewrite Q in At, An. simpl in At, An.
  injection At as At. injection An as An.
  split; [exact Itop|]. split; [exact Gtop|]. split; [exact T|].
  split; [rewrite At; rewrite Av in G; exact G|]. split; [exact Rn|]. split; [exact An|].
  intros t It Gt. destruct Fg as (before & later & E & B & A).
  assert (In t (filter has_grades (s0 :: studs))) as Ft
    by (apply filter_In; split; [exact It | apply has_grades_true, Gt]).
  rewrite E in Ft. apply in_app_or in Ft. destruct Ft as [Ft|[<-|Ft]].
  - specialize (B t Ft). unfold mean_below in *. lia.
  - unfold mean_below. lia.
  - apply A, Ft.
Qed.

(** X20. The grade that "Find top performer" prints does not depend on the
    order of the students in the roster; the name does, in a tie only.  For
    two rosters with the same students (grades between 0 and 100, fewer
    than 2^23 for a student), the grades printed are the same and the two
    students named have the same exact mean. *)
Theorem top_grade_does_not_depend_on_order (studs studs' : roster) :
  Permutation studs studs' ->
  (forall s, In s studs -> grades_ok (grades s)) ->
  (exists s, In s studs /\ grades s <> []) ->
  exists top top' grade,
    find_top_performer studs = Some [top_line (name top) grade]
    /\ find_top_performer studs' = Some [top_line (name top') grade]
    /\ In top studs /\ In top' studs
    /\ total (grades top) * len (grades top') = total (grades top') * len (grades top).
Proof.
  intros P V (s & Is & Gs).
  assert (forall t, In t studs' -> grades_ok (grades t)) as V'.
  { intros t It. apply V. apply (Permutation_in t (Permutation_sym P) It). }
  assert (exists t, In t studs' /\ grades t <> []) as E'.
  { exists s. split; trivial. apply (Permutation_in s P Is). }
  destruct (top_grade_greatest studs V (ex_intro _ s (conj Is Gs)))
    as (top & g & n & It & Gt & T & [Ig G] & Rn & En & M).
  destruct (top_grade_greatest studs' V' E')
    as (top' & g' & n' & It' & Gt' & T' & [Ig' G'] & Rn' & En' & M').
  assert (Permutation (averages_of studs) (averages_of studs')) as Pa
    by (unfold averages_of; apply Permutation_flat_map, P).
  assert (SFleb g g' = true) as L1
    by (apply G', (Permutation_in g Pa Ig)).
  assert (SFleb g' g = true) as L2
    by (apply G, (Permutation_in g' (Permutation_sym Pa) Ig')).
  subst g g'. apply tenths_leb in L1, L2; try lia.
  exists top, top', (Float.div_nat false n 10).
  assert (n' = n) as -> by lia.
  assert (In top' studs) as J by apply (Permutation_in top' (Permutation_sym P) It').
  repeat split; trivial.
  specialize (M top' J Gt').
  specialize (M' top (Permutation_in top P It) Gt).
  unfold mean_below in *. lia.
Qed.

Lemma top_grade_does_not_depend_on_order_witness :
  exists top top' grade,
    find_top_performer [ada; cy; bob] = Some [top_line (name top) grade]
    /\ find_top_performer [bob; ada; cy] = Some [top_line (name top') grade]
    /\ In top [ada; cy; bob] /\ In top' [ada; cy; bob]
    /\ total (grades top) * len (grades top') = total (grades top') * len (grades top).
Proof.
  apply (top_grade_does_not_depend_on_order [ada; cy; bob] [bob; ada; cy]).
  - apply Permutation_sym. apply (Permutation_cons_app [ada; cy] [] bob).
    apply Permutation_refl.
  - intros s [<-|[<-|[<-|[]]]]; split; try (vm_compute; discriminate);
      repeat constructor; vm_compute; discriminate.
  - exists ada. split; [left; reflexivity | discriminate].
Defined.
